(** * Banking patterns demo (src/app.js): ledger, commands, observers, strategies

    A shallow embedding of the core of [src/app.js]: customers (observers),
    interest strategies, accounts (subjects), the three transaction commands,
    the transaction manager with its undo history, and the [App] operations
    that drive them.

    Modelling choices.
    - A JavaScript number is an IEEE-754 binary64 value: balances, amounts and
      interest are Rocq's primitive [float], whose [+], [*], unary [-] and [<]
      are the binary64 operations of the source.
    - [accountIdSeq] counts 1, 2, 3, ... in steps of one. The doubles it
      takes are integers and are written as [Z], with what [++] does to a
      double written out: every sum up to 2^53 is exact, and 2^53 + 1
      rounds back to 2^53, where the counter stays ([increment]). That
      [increment] is binary64 addition of 1 on these values, and that
      comparing two ids as doubles is comparing them as integers, is proved
      from the binary64 specification ([increment_is_double_addition],
      [to_double_eqb], [to_double_ltb]). An account id looked up by the
      page is the value of [Number(id)] for an option the page offers, an
      integer in the same range.
    - Objects have identity. An account object is a cell of the [heap]
      (a list in allocation order; a reference is an index). A customer is
      immutable after construction and is written as a record carrying its
      address, so that record equality is object identity.
    - [UI.notify] is the only outbound channel: the model keeps the list of
      messages posted to it, oldest first. Message text is kept structured
      (the fields interpolated into the template string) instead of rendered.
    - DOM rendering ([UI.renderCustomers], [UI.renderAccounts],
      [UI.setInterestText]) writes to the page only and is left out. *)

From Stdlib Require Import Floats ZArith.
From Stdlib Require Uint63 Zpower.
From stdpp Require Import base option list strings.

Set Warnings "-inexact-float".

Local Open Scope Z_scope.

(** ** Customers (observers) and messages *)

(** [class Customer { constructor(name) { this.name = name; } ... }] *)
Record Customer := { cust_addr : nat; name : string }.

Global Instance Customer_eq_dec : EqDecision Customer.
Proof. solve_decision. Defined.

Inductive TypeName := Generic | Savings | Current | FixedDeposit.

(** The [reason] argument of [updateBalance], with the account ids that the
    transfer commands interpolate into it. *)
Inductive Reason :=
| ReasonDeposit                      (* 'Deposit' *)
| ReasonUndoDeposit                  (* 'Undo Deposit' *)
| ReasonWithdraw                     (* 'Withdraw' *)
| ReasonUndoWithdraw                 (* 'Undo Withdraw' *)
| ReasonTransferTo (to_id : Z)       (* `Transfer -> Acct#${this.to.id}` *)
| ReasonTransferFrom (from_id : Z)   (* `Transfer <- Acct#${this.from.id}` *)
| ReasonUndoTransferFrom (from_id : Z)
| ReasonUndoTransferTo (to_id : Z).

(** The text built by [Account.updateBalance] and [Account.notify]:
    [`Acct#${id} (${typeName}): ${reason} ${sign}${delta}. New balance: ...`]. *)
Record BalanceMessage := {
  msg_id : Z;
  msg_typeName : TypeName;
  msg_reason : Reason;
  msg_delta : float;
  msg_balance : float
}.

(** One call of [UI.notify]. [ToCustomer] is the call made by
    [Customer.update]; every other constructor is an operational notice
    posted by the core itself. *)
Inductive Notice :=
| ToCustomer (c : Customer) (m : BalanceMessage)
| WithdrawFailed (acct_id : Z)
| TransferFailed (acct_id : Z)
| NothingToUndo
| AddedCustomer (n : string)
| SelectAnOwner
| CreatedAccount (t : TypeName) (acct_id : Z) (owner_name : string)
| SelectValidAccount
| SelectValidAccounts
| SameAccount
| SelectAccountForStrategy
| AppliedStrategy (key : string) (acct_id : Z)
| SelectAnAccount.

Definition is_operational (n : Notice) : bool :=
  match n with ToCustomer _ _ => false | _ => true end.

(** ** Interest strategies *)

Inductive InterestStrategy := SavingsInterest | FixedDepositInterest | CurrentInterest.

Definition calculate (s : InterestStrategy) (balance : float) : float :=
  match s with
  | SavingsInterest => (balance * 0.03)%float
  | FixedDepositInterest => (balance * 0.07)%float
  | CurrentInterest => 0%float
  end.

(** ** Accounts and the world they live in *)

Record Account := {
  id : Z;
  owner : Customer;
  _balance : float;
  observers : list Customer;
  interestStrategy : InterestStrategy;
  typeName : TypeName
}.

Definition ref := nat.

Record World := {
  accountIdSeq : Z;
  heap : list Account;
  notifications : list Notice
}.

(** *** A state monad with failure

    [None] stands for following a reference that was never allocated, which
    JavaScript cannot do. *)
Definition M (A : Type) : Type := World -> option (A * World).

Definition ret {A} (x : A) : M A := fun w => Some (x, w).

Definition bind {A B} (m : M A) (k : A -> M B) : M B :=
  fun w => match m w with
           | Some (x, w') => k x w'
           | None => None
           end.

Notation "'let*' x ':=' m 'in' k" := (bind m (fun x => k))
  (at level 10, x name, m at level 100, k at level 200).
Notation "m ';;' k" := (bind m (fun _ => k))
  (at level 100, k at level 200, right associativity).

Definition read (r : ref) : M Account :=
  fun w => match heap w !! r with
           | Some a => Some (a, w)
           | None => None
           end.

Definition write (r : ref) (a : Account) : M unit :=
  fun w => match heap w !! r with
           | Some _ => Some (tt, {| accountIdSeq := accountIdSeq w;
                                    heap := <[r := a]> (heap w);
                                    notifications := notifications w |})
           | None => None
           end.

(** [UI.notify(msg)] *)
Definition UI_notify (n : Notice) : M unit :=
  fun w => Some (tt, {| accountIdSeq := accountIdSeq w;
                        heap := heap w;
                        notifications := notifications w ++ [n] |}).

(** [Customer.update(message) { UI.notify(`[${this.name}] ${message}`); }] *)
Definition update (c : Customer) (m : BalanceMessage) : M unit :=
  UI_notify (ToCustomer c m).

Fixpoint forEach {A} (f : A -> M unit) (l : list A) : M unit :=
  match l with
  | [] => ret tt
  | x :: l' => f x ;; forEach f l'
  end.

(** Field setters. *)
Definition set_balance (a : Account) (b : float) : Account :=
  {| id := id a; owner := owner a; _balance := b; observers := observers a;
     interestStrategy := interestStrategy a; typeName := typeName a |}.
Definition set_observers (a : Account) (os : list Customer) : Account :=
  {| id := id a; owner := owner a; _balance := _balance a; observers := os;
     interestStrategy := interestStrategy a; typeName := typeName a |}.
Definition set_strategy (a : Account) (s : InterestStrategy) : Account :=
  {| id := id a; owner := owner a; _balance := _balance a; observers := observers a;
     interestStrategy := s; typeName := typeName a |}.
Definition set_typeName (a : Account) (t : TypeName) : Account :=
  {| id := id a; owner := owner a; _balance := _balance a; observers := observers a;
     interestStrategy := interestStrategy a; typeName := t |}.

(** [Number(initialBalance) || 0]: NaN, [+0] and [-0] are falsy. *)
Definition or_zero (x : float) : float :=
  if (PrimFloat.is_nan x || PrimFloat.is_zero x)%bool then 0%float else x.

(** The largest value the counter reaches: 2^53. *)
Definition exact_limit : Z := 9007199254740992.

(** The double that holds the integer [s] (for [0 <= s < 2^63]). *)
Definition to_double (s : Z) : float := of_uint63 (Uint63.of_Z s).

(** [accountIdSeq++] on the double that holds [s], for the values the counter
    takes (1 and up): below 2^53 the successor is exact; at 2^53 the sum
    2^53 + 1 lies halfway between two doubles and rounds to the even one,
    2^53 itself. That this is binary64 addition of 1, and that [===] and [<]
    on these doubles are [=] and [<] on the integers, is proved below
    ([increment_is_double_addition], [to_double_eqb], [to_double_ltb]). *)
Definition increment (s : Z) : Z :=
  if s <? exact_limit then s + 1 else s.

(** The binary64 representation of an integer [s] with [1 <= s <= 2^53]:
    its bits shifted to a 53-bit mantissa, and the exponent that undoes the
    shift. *)
Definition canonical (s : Z) : spec_float :=
  S754_finite false (Z.to_pos (Z.shiftl s (52 - Z.log2 s))) (Z.log2 s - 52).

(** [constructor(owner, initialBalance = 0)] of [Account] *)
Definition new_Account (o : Customer) (initialBalance : float) : M ref :=
  fun w =>
    let a := {| id := accountIdSeq w;
                owner := o;
                _balance := or_zero initialBalance;
                observers := [];
                interestStrategy := CurrentInterest;
                typeName := Generic |} in
    Some (length (heap w),
          {| accountIdSeq := increment (accountIdSeq w);
             heap := heap w ++ [a];
             notifications := notifications w |}).

Definition getBalance (r : ref) : M float :=
  let* a := read r in ret (_balance a).

(** [attach(observer)]: push unless [includes] finds it. *)
Definition attach (r : ref) (o : Customer) : M unit :=
  let* a := read r in
  if bool_decide (o ∈ observers a) then ret tt
  else write r (set_observers a (observers a ++ [o])).

(** [detach(observer)]: keep the observers that are not [observer]. *)
Definition detach (r : ref) (o : Customer) : M unit :=
  let* a := read r in
  write r (set_observers a (filter (fun o' => o' ≠ o) (observers a))).

(** [notify(message)]: every observer, in list order, gets the message
    prefixed with the account's id and type name. *)
Definition notify (r : ref) (reason : Reason) (delta balance : float) : M unit :=
  let* a := read r in
  forEach (fun o => update o {| msg_id := id a; msg_typeName := typeName a;
                                msg_reason := reason; msg_delta := delta;
                                msg_balance := balance |})
          (observers a).

(** [updateBalance(delta, reason)] *)
Definition updateBalance (r : ref) (delta : float) (reason : Reason) : M unit :=
  let* a := read r in
  write r (set_balance a (_balance a + delta)%float) ;;
  let* a' := read r in
  notify r reason delta (_balance a').

Definition setInterestStrategy (r : ref) (s : InterestStrategy) : M unit :=
  let* a := read r in write r (set_strategy a s).

Definition calculateInterest (r : ref) : M float :=
  let* a := read r in ret (calculate (interestStrategy a) (_balance a)).

(** The three concrete account classes: [super(owner, initial)], then the
    type name, then the strategy. *)
Definition assign_typeName (r : ref) (t : TypeName) : M unit :=
  let* a := read r in write r (set_typeName a t).

Definition new_SavingsAccount (o : Customer) (initial : float) : M ref :=
  let* r := new_Account o initial in
  assign_typeName r Savings ;;
  setInterestStrategy r SavingsInterest ;;
  ret r.

Definition new_CurrentAccount (o : Customer) (initial : float) : M ref :=
  let* r := new_Account o initial in
  assign_typeName r Current ;;
  setInterestStrategy r CurrentInterest ;;
  ret r.

Definition new_FixedDepositAccount (o : Customer) (initial : float) : M ref :=
  let* r := new_Account o initial in
  assign_typeName r FixedDeposit ;;
  setInterestStrategy r FixedDepositInterest ;;
  ret r.

(** ** Commands *)

(** The constructors store [Number(amount)]; the amount is a number here. *)
Inductive Command :=
| DepositCommand (account : ref) (amount : float)
| WithdrawCommand (account : ref) (amount : float)
| TransferCommand (fromAcct toAcct : ref) (amount : float).

Arguments DepositCommand account%_nat amount%_float.
Arguments WithdrawCommand account%_nat amount%_float.
Arguments TransferCommand (fromAcct toAcct)%_nat amount%_float.

Definition account_id (r : ref) : M Z :=
  let* a := read r in ret (id a).

Definition execute (c : Command) : M unit :=
  match c with
  | DepositCommand account amount =>
      updateBalance account amount ReasonDeposit
  | WithdrawCommand account amount =>
      let* b := getBalance account in
      if (b <? amount)%float then
        let* i := account_id account in UI_notify (WithdrawFailed i)
      else updateBalance account (- amount)%float ReasonWithdraw
  | TransferCommand fromAcct toAcct amount =>
      let* b := getBalance fromAcct in
      if (b <? amount)%float then
        let* i := account_id fromAcct in UI_notify (TransferFailed i)
      else
        let* to_id := account_id toAcct in
        updateBalance fromAcct (- amount)%float (ReasonTransferTo to_id) ;;
        let* from_id := account_id fromAcct in
        updateBalance toAcct amount (ReasonTransferFrom from_id)
  end.

Definition undo (c : Command) : M unit :=
  match c with
  | DepositCommand account amount =>
      updateBalance account (- amount)%float ReasonUndoDeposit
  | WithdrawCommand account amount =>
      updateBalance account amount ReasonUndoWithdraw
  | TransferCommand fromAcct toAcct amount =>
      let* from_id := account_id fromAcct in
      updateBalance fromAcct amount (ReasonUndoTransferFrom from_id) ;;
      let* to_id := account_id toAcct in
      updateBalance toAcct (- amount)%float (ReasonUndoTransferTo to_id)
  end.

(** ** Transaction manager *)

Record TransactionManager := { history : list Command }.

(** [Array.prototype.pop]: the last element and what is left; [None] on an
    empty array. *)
Definition pop {A} (l : list A) : option (A * list A) :=
  match reverse l with
  | [] => None
  | x :: l' => Some (x, reverse l')
  end.

(** [executeCommand(cmd) { cmd.execute(); this.history.push(cmd); }] *)
Definition executeCommand (tm : TransactionManager) (cmd : Command)
  : M TransactionManager :=
  execute cmd ;;
  ret {| history := history tm ++ [cmd] |}.

(** [undoLast()] *)
Definition undoLast (tm : TransactionManager) : M TransactionManager :=
  if (length (history tm) =? 0)%nat then
    UI_notify NothingToUndo ;; ret tm
  else
    match pop (history tm) with
    | Some (last, rest) => undo last ;; ret {| history := rest |}
    | None => ret tm (* not reached: the array is not empty *)
    end.

(** ** The application object *)

Record App := {
  customers : list Customer;
  accounts : list ref;
  tm : TransactionManager
}.

Definition App_init : App :=
  {| customers := []; accounts := []; tm := {| history := [] |} |}.

(** [let accountIdSeq = 1] and an empty page. *)
Definition World_init : World :=
  {| accountIdSeq := 1; heap := []; notifications := [] |}.

(** [addCustomer(name)]; the new object's address is the next free one. *)
Definition addCustomer (app : App) (n : string) : M (Customer * App) :=
  let customer := {| cust_addr := length (customers app); name := n |} in
  UI_notify (AddedCustomer n) ;;
  ret (customer, {| customers := customers app ++ [customer];
                    accounts := accounts app; tm := tm app |}).

(** [createAccount(type, ownerIdx, initial)]; [None] is [undefined]. *)
Definition createAccount (app : App) (type : string) (ownerIdx : nat)
    (initial : float) : M (option ref * App) :=
  match customers app !! ownerIdx with
  | None => UI_notify SelectAnOwner ;; ret (None, app)
  | Some o =>
      let* account :=
        (if String.eqb type "savings" then new_SavingsAccount o initial
         else if String.eqb type "current" then new_CurrentAccount o initial
         else if String.eqb type "fixed" then new_FixedDepositAccount o initial
         else new_Account o initial) in
      attach account o ;;
      let* a := read account in
      UI_notify (CreatedAccount (typeName a) (id a) (name o)) ;;
      ret (Some account, {| customers := customers app;
                            accounts := accounts app ++ [account];
                            tm := tm app |})
  end.

(** [accounts.find(a => a.id === Number(id))] *)
Fixpoint find_by_id (i : Z) (l : list ref) : M (option ref) :=
  match l with
  | [] => ret None
  | r :: l' =>
      let* a := read r in
      if id a =? i then ret (Some r) else find_by_id i l'
  end.

Definition findAccountById (app : App) (i : Z) : M (option ref) :=
  find_by_id i (accounts app).

Definition with_tm (app : App) (t : TransactionManager) : App :=
  {| customers := customers app; accounts := accounts app; tm := t |}.

Definition deposit (app : App) (accountId : Z) (amount : float) : M App :=
  let* found := findAccountById app accountId in
  match found with
  | None => UI_notify SelectValidAccount ;; ret app
  | Some account =>
      let* t := executeCommand (tm app) (DepositCommand account amount) in
      ret (with_tm app t)
  end.

Definition withdraw (app : App) (accountId : Z) (amount : float) : M App :=
  let* found := findAccountById app accountId in
  match found with
  | None => UI_notify SelectValidAccount ;; ret app
  | Some account =>
      let* t := executeCommand (tm app) (WithdrawCommand account amount) in
      ret (with_tm app t)
  end.

Definition transfer (app : App) (fromId toId : Z) (amount : float) : M App :=
  let* f := findAccountById app fromId in
  let* t := findAccountById app toId in
  match f, t with
  | Some fromAcct, Some toAcct =>
      let* fi := account_id fromAcct in
      let* ti := account_id toAcct in
      if fi =? ti then UI_notify SameAccount ;; ret app
      else
        let* t' := executeCommand (tm app) (TransferCommand fromAcct toAcct amount) in
        ret (with_tm app t')
  | _, _ => UI_notify SelectValidAccounts ;; ret app
  end.

Definition App_undoLast (app : App) : M App :=
  let* t := undoLast (tm app) in ret (with_tm app t).

Definition applyStrategy (app : App) (accountId : Z) (key : string) : M App :=
  let* found := findAccountById app accountId in
  match found with
  | None => UI_notify SelectAccountForStrategy ;; ret app
  | Some account =>
      (if String.eqb key "savings" then setInterestStrategy account SavingsInterest
       else if String.eqb key "fixed" then setInterestStrategy account FixedDepositInterest
       else if String.eqb key "current" then setInterestStrategy account CurrentInterest
       else ret tt) ;;
      let* i := account_id account in
      UI_notify (AppliedStrategy key i) ;;
      ret app
  end.

Definition calcInterest (app : App) (accountId : Z) : M float :=
  let* found := findAccountById app accountId in
  match found with
  | None => UI_notify SelectAnAccount ;; ret 0%float
  | Some account => calculateInterest account
  end.

(** ** Derived descriptions used by the statements *)

(** The notices one [updateBalance(delta, reason)] makes on account [a]:
    one per attached observer, in list order, each with the new balance. *)
Definition posted (a : Account) (reason : Reason) (delta : float) : list Notice :=
  map (fun o => ToCustomer o {| msg_id := id a; msg_typeName := typeName a;
                                msg_reason := reason; msg_delta := delta;
                                msg_balance := (_balance a + delta)%float |})
      (observers a).

(** The world after [updateBalance(delta, reason)] on the account [a] stored
    at [r]. *)
Definition credited (r : ref) (a : Account) (delta : float) (reason : Reason)
    (w : World) : World :=
  {| accountIdSeq := accountIdSeq w;
     heap := <[r := set_balance a (_balance a + delta)%float]> (heap w);
     notifications := notifications w ++ posted a reason delta |}.

Definition noticed (n : Notice) (w : World) : World :=
  {| accountIdSeq := accountIdSeq w; heap := heap w;
     notifications := notifications w ++ [n] |}.

Definition balance_of (w : World) (r : ref) : option float :=
  _balance <$> heap w !! r.

(** The accounts a command holds references to. *)
Definition touched (c : Command) : list ref :=
  match c with
  | DepositCommand r _ => [r]
  | WithdrawCommand r _ => [r]
  | TransferCommand f t _ => [f; t]
  end.

(** Every reference of the command points at an allocated account, as every
    JavaScript reference does. *)
Definition refs_valid (c : Command) (w : World) : Prop :=
  Forall (fun r => is_Some (heap w !! r)) (touched c).

(** The account whose balance a guarded command tests, with the amount. *)
Definition source (c : Command) : option (ref * float) :=
  match c with
  | DepositCommand _ _ => None
  | WithdrawCommand r a => Some (r, a)
  | TransferCommand f _ a => Some (f, a)
  end.

(** The insufficient-funds notice of a guarded command on account [i]. *)
Definition failure_notice (c : Command) (i : Z) : Notice :=
  match c with
  | TransferCommand _ _ _ => TransferFailed i
  | _ => WithdrawFailed i
  end.

(** The guard of [execute]: [true] when it aborts. A deposit has none. *)
Definition aborts (c : Command) (w : World) : bool :=
  match source c with
  | None => false
  | Some (r, amount) =>
      match heap w !! r with
      | Some a => (_balance a <? amount)%float
      | None => false
      end
  end.

Definition self_transfer (c : Command) : bool :=
  match c with
  | TransferCommand f t _ => bool_decide (f = t)
  | _ => false
  end.

(** [tm.executeCommand(cmd); tm.undoLast();] *)
Definition execute_then_undo (t : TransactionManager) (cmd : Command)
  : M TransactionManager :=
  let* t1 := executeCommand t cmd in undoLast t1.

(** [n] calls of [undoLast] in a row. *)
Fixpoint undoLast_times (n : nat) (t : TransactionManager) : M TransactionManager :=
  match n with
  | O => ret t
  | S n' => let* t' := undoLast t in undoLast_times n' t'
  end.

(** Adding the amount and taking it off again (deposit, transfer
    destination), or the reverse (withdraw, transfer source), gives back the
    balance it started from: the two binary64 roundings cancel. A transfer
    from an account to itself makes all four updates on one balance. *)
Definition round_trip_exact (c : Command) (w : World) : Prop :=
  match c with
  | DepositCommand r x =>
      forall b, balance_of w r = Some b -> (b + x + - x)%float = b
  | WithdrawCommand r x =>
      forall b, balance_of w r = Some b -> (b + - x + x)%float = b
  | TransferCommand f t x =>
      if decide (f = t) then
        forall b, balance_of w f = Some b -> (b + - x + x + x + - x)%float = b
      else
        (forall b, balance_of w f = Some b -> (b + - x + x)%float = b)
        /\ (forall b, balance_of w t = Some b -> (b + x + - x)%float = b)
  end.

(** The value a computation returns, without the world. *)
Definition result {A} (m : M A) (w : World) : option A := fst <$> m w.

(** *** The demo ledger

    The four calls of the seed button's handler, with the two opening
    balances as parameters (the handler passes 1500 and 500). *)
Definition seed (a b : float) : M App :=
  let* p := addCustomer App_init "Shivani" in
  let* q := addCustomer (snd p) "Ravi" in
  let* x := createAccount (snd q) "savings" 0 a in
  let* y := createAccount (snd x) "current" 1 b in
  ret (snd y).

Definition shivani : Customer := {| cust_addr := 0; name := "Shivani" |}.
Definition ravi : Customer := {| cust_addr := 1; name := "Ravi" |}.

Definition seeded_app : App :=
  {| customers := [shivani; ravi]; accounts := [0%nat; 1%nat];
     tm := {| history := [] |} |}.

Definition seeded_world (a b : float) : World :=
  {| accountIdSeq := 3;
     heap := [ {| id := 1; owner := shivani; _balance := or_zero a;
                  observers := [shivani]; interestStrategy := SavingsInterest;
                  typeName := Savings |};
               {| id := 2; owner := ravi; _balance := or_zero b;
                  observers := [ravi]; interestStrategy := CurrentInterest;
                  typeName := Current |} ];
     notifications := [ AddedCustomer "Shivani"; AddedCustomer "Ravi";
                        CreatedAccount Savings 1 "Shivani";
                        CreatedAccount Current 2 "Ravi" ] |}.

(** The balances of the two seeded accounts. *)
Definition balances2 : M (float * float) :=
  let* a := getBalance 0%nat in
  let* b := getBalance 1%nat in
  ret (a, b).

(** Scenario C: A = 1000, B = 200, then [transfer(A, B, 300)]. *)
Definition scenario_C_transfer : M (float * float) :=
  let* app := seed 1000 200 in
  let* app := transfer app 1 2 300 in
  balances2.

(** Scenario C continued with [undoLast()]. *)
Definition scenario_C_undo : M (float * float) :=
  let* app := seed 1000 200 in
  let* app := transfer app 1 2 300 in
  let* app := App_undoLast app in
  balances2.

(** Scenario A: customer "Shivani", a Savings account opened with 1500, and
    the interest on it. *)
Definition scenario_A : M float :=
  let* p := addCustomer App_init "Shivani" in
  let* x := createAccount (snd p) "savings" 0 1500 in
  calcInterest (snd x) 1.

(** The account object a constructor leaves on the heap: id [i], owner [o],
    opening balance [init], type name [t] and strategy [s]. *)
Definition built (i : Z) (o : Customer) (init : float) (t : TypeName)
    (s : InterestStrategy) : Account :=
  {| id := i; owner := o; _balance := or_zero init; observers := [];
     interestStrategy := s; typeName := t |}.

(** The class [createAccount]'s [switch] picks for a type key. *)
Definition class_of (type : string) : TypeName * InterestStrategy :=
  if String.eqb type "savings" then (Savings, SavingsInterest)
  else if String.eqb type "current" then (Current, CurrentInterest)
  else if String.eqb type "fixed" then (FixedDeposit, FixedDepositInterest)
  else (Generic, CurrentInterest).

(** [n] calls of [attach(observer)] in a row. *)
Fixpoint attach_times (n : nat) (r : ref) (o : Customer) : M unit :=
  match n with
  | O => ret tt
  | S n' => attach r o ;; attach_times n' r o
  end.

(** The customer whose [update] posted a notice, if any. *)
Definition recipient (n : Notice) : option Customer :=
  match n with
  | ToCustomer c _ => Some c
  | _ => None
  end.

(** The notices of a list that were delivered to observer [o]. *)
Definition delivered_to (o : Customer) (ns : list Notice) : list Notice :=
  filter (fun n => recipient n = Some o) ns.

(** *** Driving the application

    The operations the page offers, and a run of them in order. The value an
    operation returns to its event handler is dropped, as the handlers do. *)
Inductive Op :=
| OpAddCustomer (n : string)
| OpCreateAccount (type : string) (ownerIdx : nat) (initial : float)
| OpDeposit (accountId : Z) (amount : float)
| OpWithdraw (accountId : Z) (amount : float)
| OpTransfer (fromId toId : Z) (amount : float)
| OpUndoLast
| OpApplyStrategy (accountId : Z) (key : string)
| OpCalcInterest (accountId : Z).

Definition perform (op : Op) (app : App) : M App :=
  match op with
  | OpAddCustomer n => let* p := addCustomer app n in ret (snd p)
  | OpCreateAccount type ownerIdx initial =>
      let* p := createAccount app type ownerIdx initial in ret (snd p)
  | OpDeposit accountId amount => deposit app accountId amount
  | OpWithdraw accountId amount => withdraw app accountId amount
  | OpTransfer fromId toId amount => transfer app fromId toId amount
  | OpUndoLast => App_undoLast app
  | OpApplyStrategy accountId key => applyStrategy app accountId key
  | OpCalcInterest accountId => calcInterest app accountId ;; ret app
  end.

Fixpoint perform_all (ops : list Op) (app : App) : M App :=
  match ops with
  | [] => ret app
  | op :: ops' => let* app' := perform op app in perform_all ops' app'
  end.

(** *** Invariants of a running application *)

(** What no operation of the page changes on an account once it is listed:
    its id, its owner and its observers. *)
Definition same_identity (a a' : Account) : Prop :=
  id a' = id a /\ owner a' = owner a /\ observers a' = observers a.

(** [w'] has the accounts of [w], with the same identities, and the same
    id counter. *)
Definition stable (w w' : World) : Prop :=
  accountIdSeq w' = accountIdSeq w /\ Forall2 same_identity (heap w) (heap w').

(** Ids below 2^53 grow along the heap, which is in creation order, and
    stay below the counter. *)
Definition ids_ordered (w : World) : Prop :=
  (forall i j a b, heap w !! i = Some a -> heap w !! j = Some b ->
                   (i < j)%nat -> id a < exact_limit -> id a < id b)
  /\ (forall i a, heap w !! i = Some a ->
                  1 <= id a /\ (id a < exact_limit -> id a < accountIdSeq w))
  /\ 1 <= accountIdSeq w.

(** An account keeps its observers without duplicates, its owner among them. *)
Definition observed_by_owner (a : Account) : Prop :=
  NoDup (observers a) /\ owner a ∈ observers a.

Definition App_ok (app : App) (w : World) : Prop :=
  Forall (fun r => is_Some (heap w !! r)) (accounts app)
  /\ Forall (fun c => refs_valid c w) (history (tm app))
  /\ Forall observed_by_owner (heap w)
  /\ ids_ordered w.

(** Every account of [w] is still there in [w'], with the same identity. *)
Definition persists (w w' : World) : Prop :=
  forall r a, heap w !! r = Some a ->
              exists a', heap w' !! r = Some a' /\ same_identity a a'.

(** Depositing -150 on the seeded account that holds 100. *)
Definition negative_deposit : M float :=
  let* app := seed 100 500 in
  let* app := deposit app 1 (-150) in
  getBalance 0%nat.

(** ** Vocabulary for the further properties *)

(** [w'] differs from [w] at most in balances and posted notices: the same
    accounts with every other field as it was, and the same id counter. *)
Definition balances_only (w w' : World) : Prop :=
  accountIdSeq w' = accountIdSeq w
  /\ length (heap w') = length (heap w)
  /\ forall r a, heap w !! r = Some a ->
       exists a', heap w' !! r = Some a' /\ a' = set_balance a (_balance a').

(** [executeCommand] on each command of a list, in order. *)
Fixpoint executeCommands (t : TransactionManager) (cs : list Command)
  : M TransactionManager :=
  match cs with
  | [] => ret t
  | c :: cs' => let* t' := executeCommand t c in executeCommands t' cs'
  end.

(** A state the page can be in: some run of operations from the empty page
    ends in it. *)
Definition reachable (app : App) (w : World) : Prop :=
  exists ops, perform_all ops App_init World_init = Some (app, w).

(** The strategy an account has after [applyStrategy(id, key)]: the [switch]
    has no default case. *)
Definition strategy_after (key : string) (s : InterestStrategy) : InterestStrategy :=
  if String.eqb key "savings" then SavingsInterest
  else if String.eqb key "fixed" then FixedDepositInterest
  else if String.eqb key "current" then CurrentInterest
  else s.

(** What one operation of the page does to the ledger, seen from outside:
    it keeps the accounts and leaves the history alone, or pushes one
    command, or pops one, or creates one account. *)
Inductive effect (app : App) (w : World) (app' : App) (w' : World) : Prop :=
| effect_none :
    stable w w' -> accounts app' = accounts app ->
    history (tm app') = history (tm app) ->
    effect app w app' w'
| effect_push (c : Command) :
    stable w w' -> accounts app' = accounts app ->
    history (tm app') = history (tm app) ++ [c] ->
    self_transfer c = false ->
    Forall (fun r => r ∈ accounts app) (touched c) ->
    effect app w app' w'
| effect_pop (c : Command) :
    stable w w' -> accounts app' = accounts app ->
    history (tm app) = history (tm app') ++ [c] ->
    effect app w app' w'
| effect_create (a : Account) :
    heap w' = heap w ++ [a] -> id a = accountIdSeq w ->
    accountIdSeq w' = increment (accountIdSeq w) ->
    accounts app' = accounts app ++ [length (heap w)] ->
    history (tm app') = history (tm app) ->
    effect app w app' w'.

(** Ids are 1, 2, 3, ... along the heap with no gap up to 2^53, where they
    stay; the counter is the next one, up to 2^53 as well; the page lists
    every account in creation order, and no recorded command transfers from
    an account to itself. *)
Definition App_tidy (app : App) (w : World) : Prop :=
  (forall i a, heap w !! i = Some a -> id a = Z.min (Z.of_nat i + 1) exact_limit)
  /\ accountIdSeq w = Z.min (Z.of_nat (length (heap w)) + 1) exact_limit
  /\ accounts app = seq 0 (length (heap w))
  /\ Forall (fun c => self_transfer c = false) (history (tm app)).

(** The click handlers of the three money buttons, as functions of the
    selected ids and of [v], the value of [Number(amountField.value)]; they
    pass [Number(...) || 0] on. *)
Definition depositBtn_click (app : App) (accountId : Z) (v : float) : M App :=
  deposit app accountId (or_zero v).

Definition withdrawBtn_click (app : App) (accountId : Z) (v : float) : M App :=
  withdraw app accountId (or_zero v).

Definition transferBtn_click (app : App) (fromId toId : Z) (v : float) : M App :=
  transfer app fromId toId (or_zero v).

(** The amount a command was constructed with. *)
Definition amount_of (c : Command) : float :=
  match c with
  | DepositCommand _ x => x
  | WithdrawCommand _ x => x
  | TransferCommand _ _ x => x
  end.

(** The history of [app'] is that of [app], or that with one more command
    whose amount is [x]. *)
Definition pushed_at_most (app app' : App) (x : float) : Prop :=
  history (tm app') = history (tm app)
  \/ exists c, history (tm app') = history (tm app) ++ [c] /\ amount_of c = x.

(** The balance of account [r] is NaN in [w]. *)
Definition balance_is_nan (w : World) (r : ref) : Prop :=
  exists b, balance_of w r = Some b /\ PrimFloat.is_nan b = true.

(** * Reasoning about the model *)

(** ** Running the primitives *)

Lemma bind_run {A B} (m : M A) (k : A -> M B) w x w1 :
  m w = Some (x, w1) -> bind m k w = k x w1.
Proof. intros H. unfold bind. by rewrite H. Qed.

Lemma pop_snoc {A} (l : list A) (x : A) : pop (l ++ [x]) = Some (x, l).
Proof. unfold pop. rewrite reverse_snoc. simpl. by rewrite reverse_involutive. Qed.

Lemma pop_nil {A} : pop (@nil A) = None.
Proof. reflexivity. Qed.

Lemma read_run r a w : heap w !! r = Some a -> read r w = Some (a, w).
Proof. intros H. unfold read. by rewrite H. Qed.

Lemma write_run r a a' w :
  heap w !! r = Some a ->
  write r a' w = Some (tt, {| accountIdSeq := accountIdSeq w;
                              heap := <[r := a']> (heap w);
                              notifications := notifications w |}).
Proof. intros H. unfold write. by rewrite H. Qed.

Lemma forEach_update_run (f : Customer -> BalanceMessage) (l : list Customer) w :
  forEach (fun o => update o (f o)) l w
  = Some (tt, {| accountIdSeq := accountIdSeq w; heap := heap w;
                 notifications := notifications w
                                  ++ map (fun o => ToCustomer o (f o)) l |}).
Proof.
  revert w. induction l as [|o l IH]; intros w; simpl.
  - unfold ret. rewrite app_nil_r. by destruct w.
  - unfold bind at 1. unfold update at 1, UI_notify. rewrite IH. simpl.
    by rewrite <- app_assoc.
Qed.

Lemma updateBalance_run r a delta reason w :
  heap w !! r = Some a ->
  updateBalance r delta reason w = Some (tt, credited r a delta reason w).
Proof.
  intros H. unfold updateBalance, bind, notify, bind.
  rewrite (read_run r a w H), (write_run r a _ w H).
  assert (Hlt : (r < length (heap w))%nat) by (by eapply lookup_lt_Some).
  unfold read at 1 2. simpl. rewrite list_lookup_insert_eq by done.
  cbn [heap]. rewrite list_lookup_insert_eq by done.
  by rewrite forEach_update_run.
Qed.

Lemma getBalance_run r a w :
  heap w !! r = Some a -> getBalance r w = Some (_balance a, w).
Proof. intros H. unfold getBalance, bind. by rewrite (read_run r a w H). Qed.

Lemma account_id_run r a w :
  heap w !! r = Some a -> account_id r w = Some (id a, w).
Proof. intros H. unfold account_id, bind. by rewrite (read_run r a w H). Qed.

Lemma setInterestStrategy_run r a s w :
  heap w !! r = Some a ->
  setInterestStrategy r s w
  = Some (tt, {| accountIdSeq := accountIdSeq w;
                 heap := <[r := set_strategy a s]> (heap w);
                 notifications := notifications w |}).
Proof.
  intros H. unfold setInterestStrategy.
  rewrite (bind_run _ _ _ _ _ (read_run _ _ _ H)). by apply (write_run r a).
Qed.

Lemma calculateInterest_run r a w :
  heap w !! r = Some a ->
  calculateInterest r w = Some (calculate (interestStrategy a) (_balance a), w).
Proof.
  intros H. unfold calculateInterest.
  by rewrite (bind_run _ _ _ _ _ (read_run _ _ _ H)).
Qed.

Lemma credited_lookup_eq r a delta reason w :
  heap w !! r = Some a ->
  heap (credited r a delta reason w) !! r
  = Some (set_balance a (_balance a + delta)%float).
Proof.
  intros H. simpl. apply list_lookup_insert_eq. by eapply lookup_lt_Some.
Qed.

Lemma credited_lookup_ne r r' a delta reason w :
  r <> r' -> heap (credited r a delta reason w) !! r' = heap w !! r'.
Proof. intros H. simpl. by apply list_lookup_insert_ne. Qed.

(** After one update of [r], any allocated [r'] is still allocated. *)
Lemma credited_is_Some r a delta reason w r' :
  is_Some (heap w !! r') -> is_Some (heap (credited r a delta reason w) !! r').
Proof.
  intros H. simpl. apply lookup_lt_is_Some. rewrite length_insert.
  by apply lookup_lt_is_Some.
Qed.

Lemma credited_length r a delta reason w :
  length (heap (credited r a delta reason w)) = length (heap w).
Proof. simpl. apply length_insert. Qed.

Lemma set_balance_set_balance a x y :
  set_balance (set_balance a x) y = set_balance a y.
Proof. reflexivity. Qed.

Lemma set_balance_same a : set_balance a (_balance a) = a.
Proof. by destruct a. Qed.

Lemma insert_restore (h : list Account) r a b :
  h !! r = Some a -> b = _balance a -> <[r := set_balance a b]> h = h.
Proof. intros H ->. rewrite set_balance_same. by apply list_insert_id. Qed.

(** ** Observers *)

Lemma attach_run r o a w :
  heap w !! r = Some a ->
  attach r o w
  = Some (tt, if bool_decide (o ∈ observers a) then w
              else {| accountIdSeq := accountIdSeq w;
                      heap := <[r := set_observers a (observers a ++ [o])]> (heap w);
                      notifications := notifications w |}).
Proof.
  intros H. unfold attach, bind. rewrite (read_run _ _ _ H).
  destruct (bool_decide (o ∈ observers a)); [done|].
  by rewrite (write_run _ _ _ _ H).
Qed.

Lemma filter_eq_NoDup (o : Customer) (l : list Customer) :
  NoDup l -> o ∈ l -> filter (fun c => c = o) l = [o].
Proof.
  induction 1 as [|x l Hx Hl IH]; intros Hin.
  - by apply elem_of_nil in Hin.
  - destruct (decide (x = o)) as [->|Hne].
    + rewrite filter_cons_True by done. f_equal.
      clear IH Hl Hin. induction l as [|y l IH]; [done|].
      apply not_elem_of_cons in Hx as [Hy Hx].
      rewrite filter_cons_False by congruence. by apply IH.
    + rewrite filter_cons_False by done. apply IH.
      apply elem_of_cons in Hin as [->|Hin]; done.
Qed.

Lemma delivered_to_posted o a reason delta :
  delivered_to o (posted a reason delta)
  = posted (set_observers a (filter (fun c => c = o) (observers a))) reason delta.
Proof.
  unfold delivered_to, posted. cbn [observers set_observers id typeName _balance].
  induction (observers a) as [|c l IH]; [done|]. simpl.
  destruct (decide (c = o)) as [->|Hne].
  - rewrite filter_cons_True by done.
    rewrite (filter_cons_True (fun c => c = o)) by done. simpl. by rewrite IH.
  - rewrite filter_cons_False by (simpl; congruence).
    by rewrite (filter_cons_False (fun c => c = o)) by done.
Qed.

Lemma attach_times_attached n r o a w :
  heap w !! r = Some a -> o ∈ observers a ->
  attach_times n r o w = Some (tt, w).
Proof.
  intros H Hin. induction n as [|n IH]; [done|]. simpl. unfold bind.
  rewrite (attach_run _ _ _ _ H), bool_decide_eq_true_2 by done. exact IH.
Qed.

(** What a first [attach] leaves: the observer is on the list, and the list
    still has no duplicates. *)
Lemma attach_adds r o a w :
  heap w !! r = Some a -> NoDup (observers a) ->
  exists w' a',
    attach r o w = Some (tt, w')
    /\ heap w' !! r = Some a'
    /\ NoDup (observers a')
    /\ o ∈ observers a'.
Proof.
  intros H Hnd. rewrite (attach_run _ _ _ _ H).
  destruct (bool_decide (o ∈ observers a)) eqn:Hin.
  - apply bool_decide_eq_true in Hin. by exists w, a.
  - apply bool_decide_eq_false in Hin.
    eexists _, (set_observers a (observers a ++ [o])). split; [done|].
    split; [|split].
    + cbn [heap]. apply list_lookup_insert_eq. by eapply lookup_lt_Some.
    + cbn [observers set_observers]. apply NoDup_app. split; [done|]. split.
      * intros x Hx ->%list_elem_of_singleton. done.
      * apply NoDup_singleton.
    + cbn [observers set_observers]. apply elem_of_app. right.
      by apply list_elem_of_singleton.
Qed.

Lemma detach_run r o a w :
  heap w !! r = Some a ->
  detach r o w
  = Some (tt, {| accountIdSeq := accountIdSeq w;
                 heap := <[r := set_observers a
                                   (filter (fun o' => o' <> o) (observers a))]>
                           (heap w);
                 notifications := notifications w |}).
Proof.
  intros H. unfold detach. rewrite (bind_run _ _ _ _ _ (read_run _ _ _ H)).
  by apply (write_run r a).
Qed.

(** [attach] and [detach] are the only writers of [observers], which starts
    empty: a list without duplicates stays so, and a detached observer is
    gone. *)
Lemma detach_removes r o a w :
  heap w !! r = Some a -> NoDup (observers a) ->
  exists w' a',
    detach r o w = Some (tt, w')
    /\ heap w' !! r = Some a'
    /\ NoDup (observers a')
    /\ o ∉ observers a'.
Proof.
  intros H Hnd. rewrite (detach_run _ _ _ _ H). eexists _, _.
  split; [done|]. split; [|split].
  - cbn [heap]. apply list_lookup_insert_eq. by eapply lookup_lt_Some.
  - cbn [observers set_observers]. by apply NoDup_filter.
  - cbn [observers set_observers]. intros Hin.
    apply list_elem_of_filter in Hin as [Hne _]. by apply Hne.
Qed.

(** ** Commands *)

Lemma execute_deposit_run r a amount w :
  heap w !! r = Some a ->
  execute (DepositCommand r amount) w
  = Some (tt, credited r a amount ReasonDeposit w).
Proof. intros H. simpl. by apply updateBalance_run. Qed.

Lemma execute_aborts_run c r amount a w :
  source c = Some (r, amount) ->
  heap w !! r = Some a ->
  (_balance a <? amount)%float = true ->
  execute c w = Some (tt, noticed (failure_notice c (id a)) w).
Proof.
  intros Hs H Hlt.
  destruct c as [r0 x|r0 x|f t x]; simpl in Hs; simplify_eq; simpl;
    unfold bind; rewrite (getBalance_run _ _ _ H), Hlt;
    by rewrite (account_id_run _ _ _ H).
Qed.

Lemma execute_withdraw_run r a amount w :
  heap w !! r = Some a ->
  (_balance a <? amount)%float = false ->
  execute (WithdrawCommand r amount) w
  = Some (tt, credited r a (- amount)%float ReasonWithdraw w).
Proof.
  intros H Hlt. simpl. unfold bind.
  rewrite (getBalance_run _ _ _ H), Hlt. by apply updateBalance_run.
Qed.

Lemma execute_transfer_run f t af at_ at1 amount w :
  heap w !! f = Some af ->
  heap w !! t = Some at_ ->
  (_balance af <? amount)%float = false ->
  heap (credited f af (- amount)%float (ReasonTransferTo (id at_)) w) !! t = Some at1 ->
  execute (TransferCommand f t amount) w
  = Some (tt, credited t at1 amount (ReasonTransferFrom (id af))
                (credited f af (- amount)%float (ReasonTransferTo (id at_)) w)).
Proof.
  intros Hf Ht Hlt H1. simpl. unfold bind.
  rewrite (getBalance_run _ _ _ Hf), Hlt, (account_id_run _ _ _ Ht).
  rewrite (updateBalance_run _ _ _ _ _ Hf).
  rewrite (account_id_run f (set_balance af (_balance af + - amount)%float))
    by (by apply credited_lookup_eq).
  by apply updateBalance_run.
Qed.

Lemma undo_deposit_run r a amount w :
  heap w !! r = Some a ->
  undo (DepositCommand r amount) w
  = Some (tt, credited r a (- amount)%float ReasonUndoDeposit w).
Proof. intros H. simpl. by apply updateBalance_run. Qed.

Lemma undo_withdraw_run r a amount w :
  heap w !! r = Some a ->
  undo (WithdrawCommand r amount) w
  = Some (tt, credited r a amount ReasonUndoWithdraw w).
Proof. intros H. simpl. by apply updateBalance_run. Qed.

Lemma undo_transfer_run f t af at1 amount w :
  heap w !! f = Some af ->
  heap (credited f af amount (ReasonUndoTransferFrom (id af)) w) !! t = Some at1 ->
  undo (TransferCommand f t amount) w
  = Some (tt, credited t at1 (- amount)%float (ReasonUndoTransferTo (id at1))
                (credited f af amount (ReasonUndoTransferFrom (id af)) w)).
Proof.
  intros Hf H1. simpl. unfold bind.
  rewrite (account_id_run _ _ _ Hf), (updateBalance_run _ _ _ _ _ Hf).
  rewrite (account_id_run _ _ _ H1). by apply updateBalance_run.
Qed.

(** ** Transaction manager *)

Lemma executeCommand_run t cmd w :
  executeCommand t cmd w
  = match execute cmd w with
    | Some (_, w1) => Some ({| history := history t ++ [cmd] |}, w1)
    | None => None
    end.
Proof. unfold executeCommand, bind. by destruct (execute cmd w) as [[[] w1]|]. Qed.

Lemma undoLast_snoc_run h cmd w :
  undoLast {| history := h ++ [cmd] |} w
  = match undo cmd w with
    | Some (_, w2) => Some ({| history := h |}, w2)
    | None => None
    end.
Proof.
  unfold undoLast. cbn [history]. rewrite length_app, pop_snoc. simpl.
  replace (length h + 1 =? 0)%nat with false
    by (symmetry; apply Nat.eqb_neq; lia).
  unfold bind. by destruct (undo cmd w) as [[[] w2]|].
Qed.

Lemma undoLast_empty_run w :
  undoLast {| history := [] |} w = Some ({| history := [] |}, noticed NothingToUndo w).
Proof. reflexivity. Qed.

Lemma execute_then_undo_run t cmd w :
  execute_then_undo t cmd w
  = match execute cmd w with
    | Some (_, w1) =>
        match undo cmd w1 with
        | Some (_, w2) => Some ({| history := history t |}, w2)
        | None => None
        end
    | None => None
    end.
Proof.
  unfold execute_then_undo, bind. rewrite executeCommand_run.
  destruct (execute cmd w) as [[[] w1]|]; [|done].
  apply undoLast_snoc_run.
Qed.

(** ** Worlds that keep their accounts *)

Lemma same_identity_refl a : same_identity a a.
Proof. by repeat split. Qed.

Lemma same_identity_trans a b c :
  same_identity a b -> same_identity b c -> same_identity a c.
Proof. unfold same_identity. intros (?&?&?) (?&?&?). repeat split; congruence. Qed.

Lemma stable_refl w : stable w w.
Proof.
  split; [done|]. apply Forall2_same_length_lookup_2; [done|].
  intros i a b Ha Hb. simplify_eq. apply same_identity_refl.
Qed.

Lemma stable_trans w1 w2 w3 : stable w1 w2 -> stable w2 w3 -> stable w1 w3.
Proof.
  intros [H1 F1] [H2 F2]. split; [congruence|].
  apply Forall2_same_length_lookup_2.
  { apply Forall2_length in F1, F2. congruence. }
  intros i a c Ha Hc.
  destruct (Forall2_lookup_l _ _ _ _ _ F1 Ha) as (b & Hb & Hab).
  destruct (Forall2_lookup_l _ _ _ _ _ F2 Hb) as (c' & Hc' & Hbc).
  simplify_eq. by eapply same_identity_trans.
Qed.

Lemma stable_length w w' : stable w w' -> length (heap w') = length (heap w).
Proof. intros [_ F]. symmetry. by eapply Forall2_length. Qed.

Lemma stable_insert r a a' n w :
  heap w !! r = Some a ->
  same_identity a a' ->
  stable w {| accountIdSeq := accountIdSeq w; heap := <[r := a']> (heap w);
              notifications := n |}.
Proof.
  intros H Hs. split; [done|]. cbn [heap].
  apply Forall2_same_length_lookup_2; [by rewrite length_insert|].
  intros i x y Hx Hy. destruct (decide (r = i)) as [->|Hne].
  - rewrite list_lookup_insert_eq in Hy by (by eapply lookup_lt_Some).
    by simplify_eq.
  - rewrite list_lookup_insert_ne in Hy by done. simplify_eq.
    apply same_identity_refl.
Qed.

Lemma credited_stable r a delta reason w :
  heap w !! r = Some a -> stable w (credited r a delta reason w).
Proof.
  intros H. apply (stable_insert r a); [done|]. by repeat split.
Qed.

Lemma noticed_stable n w : stable w (noticed n w).
Proof. split; [done|]. apply (stable_refl w). Qed.

Lemma stable_persists w w' : stable w w' -> persists w w'.
Proof. intros [_ F] r a Ha. by eapply Forall2_lookup_l. Qed.

Lemma persists_refl w : persists w w.
Proof. intros r a Ha. exists a. split; [done|apply same_identity_refl]. Qed.

Lemma persists_trans w1 w2 w3 : persists w1 w2 -> persists w2 w3 -> persists w1 w3.
Proof.
  intros H1 H2 r a Ha. destruct (H1 r a Ha) as (b & Hb & Hab).
  destruct (H2 r b Hb) as (c & Hc & Hbc). exists c. split; [done|].
  by eapply same_identity_trans.
Qed.

Lemma refs_valid_length c w w' :
  length (heap w') = length (heap w) -> refs_valid c w -> refs_valid c w'.
Proof.
  intros Hlen. unfold refs_valid. intros Hv.
  eapply Forall_impl; [exact Hv|]. intros r Hr. simpl in *.
  apply lookup_lt_is_Some. rewrite Hlen. by apply lookup_lt_is_Some.
Qed.

Lemma refs_valid_stable c w w' : stable w w' -> refs_valid c w -> refs_valid c w'.
Proof. intros Hs. apply refs_valid_length. by apply stable_length. Qed.

Lemma execute_stable c w :
  refs_valid c w -> exists w', execute c w = Some (tt, w') /\ stable w w'.
Proof.
  unfold refs_valid. destruct c as [r x|r x|f t x]; simpl touched; intros Hv.
  - apply Forall_singleton in Hv as [a Ha]. eexists. split.
    + by apply execute_deposit_run.
    + by apply credited_stable.
  - apply Forall_singleton in Hv as [a Ha].
    destruct (_balance a <? x)%float eqn:Hlt.
    + eexists. split; [by eapply execute_aborts_run|apply noticed_stable].
    + eexists. split; [by apply execute_withdraw_run|by apply credited_stable].
  - apply Forall_cons in Hv as [[af Hf] Hv].
    apply Forall_singleton in Hv as [at_ Ht].
    destruct (_balance af <? x)%float eqn:Hlt.
    + eexists. split; [by eapply execute_aborts_run|apply noticed_stable].
    + destruct (credited_is_Some f af (- x)%float (ReasonTransferTo (id at_)) w t)
        as [at1 H1]; [by eexists|].
      eexists. split; [by eapply execute_transfer_run|].
      apply (stable_trans _ (credited f af (- x)%float (ReasonTransferTo (id at_)) w));
        by apply credited_stable.
Qed.

Lemma undo_stable c w :
  refs_valid c w -> exists w', undo c w = Some (tt, w') /\ stable w w'.
Proof.
  unfold refs_valid. destruct c as [r x|r x|f t x]; simpl touched; intros Hv.
  - apply Forall_singleton in Hv as [a Ha]. eexists. split.
    + by apply undo_deposit_run.
    + by apply credited_stable.
  - apply Forall_singleton in Hv as [a Ha]. eexists. split.
    + by apply undo_withdraw_run.
    + by apply credited_stable.
  - apply Forall_cons in Hv as [[af Hf] Hv].
    apply Forall_singleton in Hv as [at_ Ht].
    destruct (credited_is_Some f af x (ReasonUndoTransferFrom (id af)) w t)
      as [at1 H1]; [by eexists|].
    eexists. split; [by eapply undo_transfer_run|].
    apply (stable_trans _ (credited f af x (ReasonUndoTransferFrom (id af)) w));
      by apply credited_stable.
Qed.

(** What the reversal of an aborted command does to the source account. *)
Lemma undo_source_balance c src amount a w w2 :
  source c = Some (src, amount) ->
  self_transfer c = false ->
  heap w !! src = Some a ->
  undo c w = Some (tt, w2) ->
  balance_of w2 src = Some (_balance a + amount)%float.
Proof.
  intros Hs Hself H Hu. unfold balance_of.
  destruct c as [r x|r x|f t x]; simpl in Hs; simplify_eq.
  - rewrite (undo_withdraw_run _ _ _ _ H) in Hu. simplify_eq.
    by rewrite credited_lookup_eq.
  - simpl in Hself. apply bool_decide_eq_false in Hself.
    destruct (heap (credited src a amount (ReasonUndoTransferFrom (id a)) w) !! t)
      as [at1|] eqn:H1.
    + rewrite (undo_transfer_run _ _ _ _ _ _ H H1) in Hu. simplify_eq.
      rewrite credited_lookup_ne by done. by rewrite credited_lookup_eq.
    + exfalso. simpl in Hu. unfold bind in Hu.
      rewrite (account_id_run _ _ _ H), (updateBalance_run _ _ _ _ _ H) in Hu.
      unfold account_id, bind, read in Hu. by rewrite H1 in Hu.
Qed.

(** ** Constructors *)

Lemma lookup_snoc_last {A} (h : list A) (a : A) : (h ++ [a]) !! length h = Some a.
Proof. by apply list_lookup_middle. Qed.

Lemma insert_snoc_last {A} (h : list A) (a a' : A) :
  <[length h := a']> (h ++ [a]) = h ++ [a'].
Proof.
  rewrite (insert_app_r_alt h [a] (length h)) by lia.
  by rewrite Nat.sub_diag.
Qed.

Lemma new_Account_run o init w :
  new_Account o init w
  = Some (length (heap w),
          {| accountIdSeq := increment (accountIdSeq w);
             heap := heap w ++ [built (accountIdSeq w) o init Generic CurrentInterest];
             notifications := notifications w |}).
Proof. reflexivity. Qed.

Lemma typed_constructor_run t s o init w :
  (let* r := new_Account o init in
   assign_typeName r t ;; setInterestStrategy r s ;; ret r) w
  = Some (length (heap w),
          {| accountIdSeq := increment (accountIdSeq w);
             heap := heap w ++ [built (accountIdSeq w) o init t s];
             notifications := notifications w |}).
Proof.
  unfold bind at 1. rewrite new_Account_run.
  unfold bind, assign_typeName, setInterestStrategy, bind, read, write.
  repeat (cbn [heap accountIdSeq notifications];
          rewrite ?lookup_snoc_last, ?insert_snoc_last).
  reflexivity.
Qed.

Lemma attach_fresh_run o i init t s h n seq :
  attach (length h) o {| accountIdSeq := seq; heap := h ++ [built i o init t s];
                         notifications := n |}
  = Some (tt, {| accountIdSeq := seq;
                 heap := h ++ [set_observers (built i o init t s) [o]];
                 notifications := n |}).
Proof.
  unfold attach, bind, read, write. cbn [heap accountIdSeq notifications].
  rewrite lookup_snoc_last. cbn [observers built]. 
  rewrite bool_decide_eq_false_2 by (apply not_elem_of_nil).
  cbn [heap accountIdSeq notifications].
  by rewrite lookup_snoc_last, insert_snoc_last.
Qed.

Lemma createAccount_run app type ownerIdx init o w :
  customers app !! ownerIdx = Some o ->
  createAccount app type ownerIdx init w
  = Some ((Some (length (heap w)),
           {| customers := customers app;
              accounts := accounts app ++ [length (heap w)];
              tm := tm app |}),
          {| accountIdSeq := increment (accountIdSeq w);
             heap := heap w
                     ++ [set_observers
                           (built (accountIdSeq w) o init
                              (fst (class_of type)) (snd (class_of type))) [o]];
             notifications := notifications w
                              ++ [CreatedAccount (fst (class_of type))
                                    (accountIdSeq w) (name o)] |}).
Proof.
  intros Ho. unfold createAccount. rewrite Ho. unfold class_of.
  unfold bind at 1.
  assert (Hnew : forall t s m,
    m w = Some (length (heap w),
                {| accountIdSeq := increment (accountIdSeq w);
                   heap := heap w ++ [built (accountIdSeq w) o init t s];
                   notifications := notifications w |}) ->
    match m w with
    | Some (x, w') =>
        (attach x o;;
         (let* a := read x
          in UI_notify (CreatedAccount (typeName a) (id a) (name o));;
             ret (Some x, {| customers := customers app;
                             accounts := accounts app ++ [x];
                             tm := tm app |}))) w'
    | None => None
    end
    = Some ((Some (length (heap w)),
             {| customers := customers app;
                accounts := accounts app ++ [length (heap w)];
                tm := tm app |}),
            {| accountIdSeq := increment (accountIdSeq w);
               heap := heap w ++ [set_observers (built (accountIdSeq w) o init t s) [o]];
               notifications := notifications w
                                ++ [CreatedAccount t (accountIdSeq w) (name o)] |})).
  { intros t s m ->. unfold bind at 1. rewrite attach_fresh_run.
    unfold bind, read. cbn [heap]. by rewrite lookup_snoc_last. }
  destruct (String.eqb type "savings");
    [apply Hnew, typed_constructor_run|].
  destruct (String.eqb type "current");
    [apply Hnew, typed_constructor_run|].
  destruct (String.eqb type "fixed");
    [apply Hnew, typed_constructor_run|].
  apply Hnew, new_Account_run.
Qed.

(** ** The application keeps its invariants *)

Lemma find_by_id_run i l w :
  Forall (fun r => is_Some (heap w !! r)) l ->
  exists found,
    find_by_id i l w = Some (found, w)
    /\ forall r, found = Some r -> is_Some (heap w !! r).
Proof.
  induction 1 as [|r l [a Ha] Hl IH]; simpl.
  - exists None. split; [done|]. intros r; discriminate.
  - rewrite (bind_run _ _ _ _ _ (read_run _ _ _ Ha)).
    destruct (id a =? i).
    + exists (Some r). split; [done|]. intros r' [= <-]. by eexists.
    + exact IH.
Qed.

Lemma App_ok_stable app w w' : stable w w' -> App_ok app w -> App_ok app w'.
Proof.
  intros Hs (Hacc & Hhist & Hobs & Hord & Hbelow & Hseq).
  pose proof (stable_length _ _ Hs) as Hlen. destruct Hs as [Hid F].
  split; [|split; [|split; [|split; [|split]]]].
  - eapply Forall_impl; [exact Hacc|]. intros r Hr. simpl in *.
    apply lookup_lt_is_Some. rewrite Hlen. by apply lookup_lt_is_Some.
  - eapply Forall_impl; [exact Hhist|]. intros c. by apply refs_valid_length.
  - apply Forall_lookup. intros i a' Ha'.
    destruct (Forall2_lookup_r _ _ _ _ _ F Ha') as (a & Ha & (_ & Ho & Hobs')).
    pose proof (Forall_lookup_1 _ _ _ _ Hobs Ha) as [Hnd Hin].
    unfold observed_by_owner. by rewrite Ho, Hobs'.
  - intros i j a' b' Ha' Hb' Hij.
    destruct (Forall2_lookup_r _ _ _ _ _ F Ha') as (a & Ha & (Hia & _)).
    destruct (Forall2_lookup_r _ _ _ _ _ F Hb') as (b & Hb & (Hib & _)).
    rewrite Hia, Hib. by eapply Hord.
  - intros i a' Ha'.
    destruct (Forall2_lookup_r _ _ _ _ _ F Ha') as (a & Ha & (Hia & _)).
    rewrite Hia, Hid. by eapply Hbelow.
  - by rewrite Hid.
Qed.

Lemma App_ok_init : App_ok App_init World_init.
Proof.
  split; [constructor|]. split; [constructor|]. split; [constructor|].
  split; [|split]; [intros i j a b Ha; by destruct i | |done].
  intros i a Ha. by destruct i.
Qed.

(** [App_ok] does not look at the customers. *)
Lemma App_ok_customers app cs w :
  App_ok app w ->
  App_ok {| customers := cs; accounts := accounts app; tm := tm app |} w.
Proof. by intros H. Qed.

Lemma App_ok_push app c w :
  App_ok app w -> refs_valid c w ->
  App_ok (with_tm app {| history := history (tm app) ++ [c] |}) w.
Proof.
  intros (Hacc & Hhist & Hrest) Hc. split; [done|]. split; [|done].
  cbn [with_tm tm history]. apply Forall_app. split; [done|].
  by apply Forall_singleton.
Qed.

Lemma App_ok_created app w o init t s :
  App_ok app w ->
  App_ok {| customers := customers app;
            accounts := accounts app ++ [length (heap w)];
            tm := tm app |}
         {| accountIdSeq := increment (accountIdSeq w);
            heap := heap w ++ [set_observers (built (accountIdSeq w) o init t s) [o]];
            notifications := notifications w
                             ++ [CreatedAccount t (accountIdSeq w) (name o)] |}.
Proof.
  intros (Hacc & Hhist & Hobs & Hord & Hbelow & Hseq).
  assert (Hgrow : forall r, is_Some (heap w !! r) ->
            is_Some ((heap w ++ [set_observers (built (accountIdSeq w) o init t s) [o]]) !! r)).
  { intros r Hr. apply lookup_lt_is_Some. rewrite length_app. simpl.
    apply lookup_lt_is_Some in Hr. lia. }
  split; [|split; [|split; [|split; [|split]]]]; cbn [accounts tm heap accountIdSeq].
  - apply Forall_app. split.
    + eapply Forall_impl; [exact Hacc|]. intros r Hr. by apply Hgrow.
    + apply Forall_singleton. rewrite lookup_snoc_last. by eexists.
  - eapply Forall_impl; [exact Hhist|]. intros c Hc. unfold refs_valid in *.
    eapply Forall_impl; [exact Hc|]. intros r Hr. by apply Hgrow.
  - apply Forall_app. split; [done|]. apply Forall_singleton. split.
    + apply NoDup_singleton.
    + cbn. by apply list_elem_of_singleton.
  - intros i j a b Ha Hb Hij Hlim.
    apply lookup_snoc_Some in Ha as [[Hi Ha]|[-> <-]];
      apply lookup_snoc_Some in Hb as [[Hj Hb]|[-> <-]].
    + by eapply Hord.
    + cbn. by apply (Hbelow i a).
    + apply lookup_lt_Some in Hb. lia.
    + lia.
  - intros i a Ha. unfold increment.
    apply lookup_snoc_Some in Ha as [[Hi Ha]|[-> <-]].
    + destruct (Hbelow i a Ha) as [H1 H2]. split; [done|]. intros Hlim.
      specialize (H2 Hlim). destruct (Z.ltb_spec (accountIdSeq w) exact_limit); lia.
    + cbn. split; [done|]. intros Hlim.
      destruct (Z.ltb_spec (accountIdSeq w) exact_limit); lia.
  - unfold increment. destruct (Z.ltb_spec (accountIdSeq w) exact_limit); lia.
Qed.

Lemma executeCommand_ok app c w :
  App_ok app w -> refs_valid c w ->
  exists w',
    (let* t := executeCommand (tm app) c in ret (with_tm app t)) w
    = Some (with_tm app {| history := history (tm app) ++ [c] |}, w')
    /\ App_ok (with_tm app {| history := history (tm app) ++ [c] |}) w'
    /\ stable w w'.
Proof.
  intros Hok Hc. destruct (execute_stable c w Hc) as (w' & He & Hs).
  exists w'. split; [|split; [|done]].
  - unfold bind at 1. by rewrite executeCommand_run, He.
  - eapply App_ok_stable; [exact Hs|]. by apply App_ok_push.
Qed.

Lemma App_undoLast_ok app w :
  App_ok app w ->
  exists app' w', App_undoLast app w = Some (app', w')
                  /\ App_ok app' w' /\ stable w w'.
Proof.
  intros Hok. unfold App_undoLast.
  destruct app as [cs acc [h]]. cbn [tm].
  destruct h as [|c h _] using rev_ind.
  - rewrite (bind_run _ _ _ _ _ (undoLast_empty_run w)).
    eexists _, _. split; [done|]. split; [|apply noticed_stable].
    eapply App_ok_stable; [apply noticed_stable|exact Hok].
  - destruct Hok as (Hacc & Hhist & Hrest). cbn [tm history] in Hhist.
    apply Forall_app in Hhist as [Hh Hc]. rewrite Forall_singleton in Hc.
    destruct (undo_stable c w Hc) as (w' & Hu & Hs).
    unfold bind. rewrite undoLast_snoc_run, Hu.
    eexists _, _. split; [done|]. split; [|done].
    eapply App_ok_stable; [exact Hs|]. by split.
Qed.

Lemma persists_created h a n n' seq seq' :
  persists {| accountIdSeq := seq; heap := h; notifications := n |}
           {| accountIdSeq := seq'; heap := h ++ [a]; notifications := n' |}.
Proof.
  intros r x Hx. cbn [heap] in *. exists x. split; [|apply same_identity_refl].
  rewrite lookup_app_l; [done|]. by eapply lookup_lt_Some.
Qed.

(** Every operation of the page runs to completion on a state that satisfies
    the invariants, keeps them, and keeps every account with its identity. *)
Lemma perform_ok op app w :
  App_ok app w ->
  exists app' w',
    perform op app w = Some (app', w') /\ App_ok app' w' /\ persists w w'.
Proof.
  intros Hok.
  assert (Hnote : forall n, App_ok app (noticed n w) /\ persists w (noticed n w)).
  { intros n. split; [by eapply App_ok_stable; [apply noticed_stable|]|].
    apply stable_persists, noticed_stable. }
  assert (Hfind : forall i, exists found,
             findAccountById app i w = Some (found, w)
             /\ forall r, found = Some r -> is_Some (heap w !! r)).
  { intros i. apply find_by_id_run. by destruct Hok. }
  destruct op as [n|type idx init|i x|i x|fi ti x| |i key|i]; simpl.
  - eexists _, _. split; [reflexivity|]. split; [|apply Hnote].
    apply App_ok_customers with (app := app), Hnote.
  - destruct (customers app !! idx) as [o|] eqn:Ho.
    + rewrite (bind_run _ _ _ _ _ (createAccount_run _ type _ init _ w Ho)).
      eexists _, _. split; [reflexivity|]. split.
      * by apply App_ok_created.
      * destruct w. apply persists_created.
    + unfold createAccount. rewrite Ho.
      eexists _, _. split; [reflexivity|]. apply Hnote.
  - unfold deposit. destruct (Hfind i) as (found & Hf & Hv).
    rewrite (bind_run _ _ _ _ _ Hf). destruct found as [r|].
    + destruct (executeCommand_ok app (DepositCommand r x) w Hok)
        as (w' & He & Hok' & Hs).
      { apply Forall_singleton. by apply Hv. }
      eexists _, _. split; [exact He|]. split; [done|by apply stable_persists].
    + eexists _, _. split; [reflexivity|]. apply Hnote.
  - unfold withdraw. destruct (Hfind i) as (found & Hf & Hv).
    rewrite (bind_run _ _ _ _ _ Hf). destruct found as [r|].
    + destruct (executeCommand_ok app (WithdrawCommand r x) w Hok)
        as (w' & He & Hok' & Hs).
      { apply Forall_singleton. by apply Hv. }
      eexists _, _. split; [exact He|]. split; [done|by apply stable_persists].
    + eexists _, _. split; [reflexivity|]. apply Hnote.
  - unfold transfer. destruct (Hfind fi) as (ff & Hff & Hvf).
    destruct (Hfind ti) as (ft & Hft & Hvt).
    rewrite (bind_run _ _ _ _ _ Hff), (bind_run _ _ _ _ _ Hft).
    destruct ff as [f|]; [destruct ft as [t|]|].
    + destruct (Hvf f eq_refl) as [af Haf]. destruct (Hvt t eq_refl) as [at_ Hat].
      rewrite (bind_run _ _ _ _ _ (account_id_run _ _ _ Haf)).
      rewrite (bind_run _ _ _ _ _ (account_id_run _ _ _ Hat)).
      destruct (id af =? id at_).
      * eexists _, _. split; [reflexivity|]. apply Hnote.
      * destruct (executeCommand_ok app (TransferCommand f t x) w Hok)
          as (w' & He & Hok' & Hs).
        { apply Forall_cons. split; [by eexists|].
          apply Forall_singleton. by eexists. }
        eexists _, _. split; [exact He|].
        split; [done|by apply stable_persists].
    + eexists _, _. split; [reflexivity|]. apply Hnote.
    + destruct ft; eexists _, _; (split; [reflexivity|]); apply Hnote.
  - destruct (App_undoLast_ok app w Hok) as (app' & w' & H & Hok' & Hs).
    exists app', w'. split; [done|]. split; [done|by apply stable_persists].
  - unfold applyStrategy. destruct (Hfind i) as (found & Hf & Hv).
    rewrite (bind_run _ _ _ _ _ Hf). destruct found as [r|].
    + destruct (Hv r eq_refl) as [a Ha].
      assert (Hset : exists w1,
        (if String.eqb key "savings" then setInterestStrategy r SavingsInterest
         else if String.eqb key "fixed" then setInterestStrategy r FixedDepositInterest
         else if String.eqb key "current" then setInterestStrategy r CurrentInterest
         else ret tt) w = Some (tt, w1) /\ stable w w1).
      { pose proof (fun s => setInterestStrategy_run r a s w Ha) as Hrun.
        assert (Hst : forall s, stable w
                  {| accountIdSeq := accountIdSeq w;
                     heap := <[r := set_strategy a s]> (heap w);
                     notifications := notifications w |}).
        { intros s. apply (stable_insert r a); [done|]. by repeat split. }
        destruct (String.eqb key "savings"); [eexists; split; [apply Hrun|apply Hst]|].
        destruct (String.eqb key "fixed"); [eexists; split; [apply Hrun|apply Hst]|].
        destruct (String.eqb key "current"); [eexists; split; [apply Hrun|apply Hst]|].
        eexists. split; [reflexivity|apply stable_refl]. }
      destruct Hset as (w1 & Hset & Hs1).
      rewrite (bind_run _ _ _ _ _ Hset).
      destruct (stable_persists _ _ Hs1 r a Ha) as (a1 & Ha1 & _).
      rewrite (bind_run _ _ _ _ _ (account_id_run _ _ _ Ha1)).
      eexists _, _. split; [reflexivity|].
      assert (Hs2 : stable w (noticed (AppliedStrategy key (id a1)) w1)).
      { eapply stable_trans; [exact Hs1|apply noticed_stable]. }
      split; [by eapply App_ok_stable|by apply stable_persists].
    + eexists _, _. split; [reflexivity|]. apply Hnote.
  - unfold calcInterest. destruct (Hfind i) as (found & Hf & Hv).
    unfold bind at 1 2. rewrite Hf. destruct found as [r|].
    + destruct (Hv r eq_refl) as [a Ha].
      rewrite (calculateInterest_run _ _ _ Ha).
      eexists _, _. split; [reflexivity|]. split; [done|apply persists_refl].
    + eexists _, _. split; [reflexivity|]. apply Hnote.
Qed.

Lemma perform_all_ok ops app w :
  App_ok app w ->
  exists app' w',
    perform_all ops app w = Some (app', w') /\ App_ok app' w' /\ persists w w'.
Proof.
  revert app w. induction ops as [|op ops IH]; intros app w Hok; simpl.
  - exists app, w. split; [done|]. split; [done|apply persists_refl].
  - destruct (perform_ok op app w Hok) as (app1 & w1 & H1 & Hok1 & Hp1).
    destruct (IH app1 w1 Hok1) as (app2 & w2 & H2 & Hok2 & Hp2).
    exists app2, w2. rewrite (bind_run _ _ _ _ _ H1).
    split; [done|]. split; [done|by eapply persists_trans].
Qed.

Lemma seed_run a b : seed a b World_init = Some (seeded_app, seeded_world a b).
Proof. reflexivity. Qed.

(** ** Binary64 facts *)

Lemma SFcompare_swap x y :
  SpecFloat.SFcompare y x = CompOpp <$> SpecFloat.SFcompare x y.
Proof.
  destruct x as [[]|[]| |[] mx ex], y as [[]|[]| |[] my ey]; simpl; try done.
  all: rewrite (Z.compare_antisym ey ex); destruct (ey ?= ex)%Z; simpl; try done.
  all: change (PosDef.Pos.compare_cont Eq mx my) with (mx ?= my)%positive.
  all: change (PosDef.Pos.compare_cont Eq my mx) with (my ?= mx)%positive.
  all: rewrite (Pos.compare_antisym my mx); by destruct (my ?= mx)%positive.
Qed.

(** [balance >= amount] makes the guard [balance < amount] false. *)
Lemma geb_not_ltb (b amount : float) :
  (amount <=? b)%float = true -> (b <? amount)%float = false.
Proof.
  rewrite leb_spec, ltb_spec. unfold SpecFloat.SFleb, SpecFloat.SFltb.
  rewrite (SFcompare_swap (Prim2SF amount) (Prim2SF b)).
  by destruct (SpecFloat.SFcompare (Prim2SF amount) (Prim2SF b)) as [[]|].
Qed.

(** *** The id counter in double arithmetic *)

Lemma digits2_pos_size p : digits2_pos p = Pos.size p.
Proof. induction p; simpl; congruence. Qed.

Lemma Zdigits2_log2 z : 0 < z -> Zdigits2 z = Z.log2 z + 1.
Proof.
  destruct z as [|p|p]; try lia. intros _. simpl Zdigits2.
  rewrite digits2_pos_size. destruct p; simpl; lia.
Qed.

Lemma iter_xO_pow m k : Zpos (Pos.iter xO m k) = Zpos m * 2 ^ Zpos k.
Proof.
  pose proof (Zpower.shift_pos_correct k m) as H. unfold Zpower.shift_pos in H.
  rewrite H.
  change (Zpower_pos 2 k) with (2 ^ Zpos k). lia.
Qed.

Lemma shl_align_le mx ex ex' :
  ex' <= ex ->
  shl_align mx ex ex' = (Z.to_pos (Zpos mx * 2 ^ (ex - ex')), ex').
Proof.
  intros H. unfold shl_align. destruct (ex' - ex) as [|d|d] eqn:E; [|lia|].
  - assert (ex = ex') as -> by lia. by rewrite Z.sub_diag, Z.mul_1_r.
  - assert (ex - ex' = Zpos d) as -> by lia. by rewrite <- iter_xO_pow.
Qed.

Lemma shl_align_ge mx ex ex' : ex <= ex' -> shl_align mx ex ex' = (mx, ex).
Proof. intros H. unfold shl_align. destruct (ex' - ex) eqn:E; [done|done|lia]. Qed.

Lemma iter_pos_nat (A : Type) (f : A -> A) p x :
  @SpecFloat.iter_pos A f p x = Nat.iter (Pos.to_nat p) f x.
Proof.
  revert x. induction p as [p IH|p IH|]; intros x; simpl SpecFloat.iter_pos.
  - rewrite Pos2Nat.inj_xI, !IH, Nat.iter_succ_r.
    replace (2 * Pos.to_nat p)%nat with (Pos.to_nat p + Pos.to_nat p)%nat by lia.
    by rewrite Nat.iter_add.
  - rewrite Pos2Nat.inj_xO, !IH.
    replace (2 * Pos.to_nat p)%nat with (Pos.to_nat p + Pos.to_nat p)%nat by lia.
    by rewrite Nat.iter_add.
  - done.
Qed.

Lemma shr_1_even z :
  0 < z ->
  shr_1 {| shr_m := 2 * z; shr_r := false; shr_s := false |}
  = {| shr_m := z; shr_r := false; shr_s := false |}.
Proof. by destruct z. Qed.

Lemma iter_shr_1_exact n z :
  0 < z ->
  Nat.iter n shr_1 {| shr_m := z * 2 ^ Z.of_nat n; shr_r := false; shr_s := false |}
  = {| shr_m := z; shr_r := false; shr_s := false |}.
Proof.
  intros Hz. induction n as [|n IH].
  - simpl. by rewrite Z.mul_1_r.
  - rewrite Nat.iter_succ_r.
    replace (z * 2 ^ Z.of_nat (S n)) with (2 * (z * 2 ^ Z.of_nat n)).
    + rewrite shr_1_even; [exact IH|]. apply Z.mul_pos_pos; [done|].
      apply Z.pow_pos_nonneg; lia.
    + rewrite Nat2Z.inj_succ, Z.pow_succ_r by lia. lia.
Qed.

Lemma shr_exact z e n :
  0 < z -> 0 <= n ->
  shr {| shr_m := z * 2 ^ n; shr_r := false; shr_s := false |} e n
  = ({| shr_m := z; shr_r := false; shr_s := false |}, e + n).
Proof.
  intros Hz Hn. destruct n as [|p|p]; [|clear Hn|lia].
  - by rewrite Z.mul_1_r, Z.add_0_r.
  - unfold shr. rewrite iter_pos_nat. f_equal.
    rewrite <- (positive_nat_Z p). by apply iter_shr_1_exact.
Qed.

(** A mantissa of 53 bits followed by [n] zero bits is rounded to itself. *)
Lemma binary_round_aux_exact z e n :
  Z.log2 z = 52 -> 0 <= n -> -1074 <= e + n <= 971 ->
  binary_round_aux prec emax false (z * 2 ^ n) e loc_Exact
  = S754_finite false (Z.to_pos z) (e + n).
Proof.
  intros Hl Hn He.
  assert (Hz : 0 < z) by (destruct z; [done|lia|done]).
  assert (Hd : Zdigits2 (z * 2 ^ n) = 53 + n).
  { rewrite Zdigits2_log2 by (apply Z.mul_pos_pos; [done|apply Z.pow_pos_nonneg; lia]).
    rewrite Z.log2_mul_pow2 by lia. lia. }
  assert (Hd0 : Zdigits2 z = 53) by (rewrite Zdigits2_log2 by done; lia).
  unfold binary_round_aux, shr_fexp. rewrite Hd.
  replace (fexp prec emax (53 + n + e) - e) with n
    by (unfold fexp, emin, prec, emax; lia).
  cbn [shr_record_of_loc]. rewrite shr_exact by done.
  cbn [shr_m loc_of_shr_record round_nearest_even]. rewrite Hd0.
  replace (fexp prec emax (53 + (e + n)) - (e + n)) with 0
    by (unfold fexp, emin, prec, emax; lia).
  cbn [shr shr_m].
  destruct z as [|p|p]; [done| |done].
  replace (e + n <=? emax - prec) with true; [done|].
  symmetry. apply Z.leb_le. unfold prec, emax. lia.
Qed.

Lemma log2_bounds s : 1 <= s < 2 ^ 53 -> 0 <= Z.log2 s <= 52.
Proof.
  intros H. split; [apply Z.log2_nonneg|].
  assert (Z.log2 s < 53); [|lia]. apply Z.log2_lt_pow2; lia.
Qed.

Lemma canonical_eq s :
  1 <= s < 2 ^ 53 ->
  canonical s
  = S754_finite false (Z.to_pos (s * 2 ^ (52 - Z.log2 s))) (Z.log2 s - 52).
Proof.
  intros H. pose proof (log2_bounds s H). unfold canonical.
  by rewrite Z.shiftl_mul_pow2 by lia.
Qed.

Lemma binary_normalize_canonical s :
  1 <= s < 2 ^ 53 -> binary_normalize prec emax s 0 false = canonical s.
Proof.
  intros H. pose proof (log2_bounds s H) as Hl. rewrite canonical_eq by done.
  destruct s as [|p|p]; [lia| |lia].
  unfold binary_normalize, binary_round.
  pose proof (Zdigits2_log2 (Zpos p) eq_refl) as Hd. simpl Zdigits2 in Hd.
  rewrite Hd.
  replace (fexp prec emax (Z.log2 (Zpos p) + 1 + 0)) with (Z.log2 (Zpos p) - 52)
    by (unfold fexp, emin, prec, emax; lia).
  rewrite shl_align_le by lia.
  replace (0 - (Z.log2 (Zpos p) - 52)) with (52 - Z.log2 (Zpos p)) by lia.
  set (z := Zpos p * 2 ^ (52 - Z.log2 (Zpos p))).
  assert (Hz : 0 < z) by (apply Z.mul_pos_pos; [done|apply Z.pow_pos_nonneg; lia]).
  assert (Hlz : Z.log2 z = 52).
  { unfold z. rewrite Z.log2_mul_pow2 by lia. lia. }
  pose proof (binary_round_aux_exact z (Z.log2 (Zpos p) - 52) 0 Hlz) as Hr.
  rewrite Z.pow_0_r, Z.mul_1_r, Z.add_0_r in Hr.
  rewrite Z2Pos.id by done. apply Hr; lia.
Qed.

Lemma Prim2SF_one : Prim2SF 1%float = S754_finite false 4503599627370496 (-52).
Proof. reflexivity. Qed.

Lemma add_one_canonical s :
  1 <= s -> s + 1 < 2 ^ 53 ->
  SFadd prec emax (canonical s) (S754_finite false 4503599627370496 (-52))
  = canonical (s + 1).
Proof.
  intros H1 H2.
  pose proof (log2_bounds s ltac:(lia)) as Hl.
  pose proof (log2_bounds (s + 1) ltac:(lia)) as Hl'.
  rewrite !canonical_eq by lia.
  set (l := Z.log2 s) in *. set (l' := Z.log2 (s + 1)) in *.
  assert (Hp : 0 < s * 2 ^ (52 - l))
    by (apply Z.mul_pos_pos; [lia|apply Z.pow_pos_nonneg; lia]).
  unfold SFadd.
  replace (Z.min (l - 52) (-52)) with (-52) by lia.
  rewrite shl_align_le by lia. rewrite (shl_align_le _ (-52) (-52)) by lia.
  cbn [fst cond_Zopp].
  assert (E1 : Z.pos (Z.to_pos (Z.pos (Z.to_pos (s * 2 ^ (52 - l)))
                                * 2 ^ (l - 52 - -52))) = s * 2 ^ 52).
  { rewrite (Z2Pos.id (s * 2 ^ (52 - l))) by exact Hp.
    replace (l - 52 - -52) with l by lia.
    rewrite <- Z.mul_assoc, <- Z.pow_add_r by lia.
    replace (52 - l + l) with 52 by lia.
    apply Z2Pos.id. lia. }
  assert (E2 : Z.pos (Z.to_pos (4503599627370496 * 2 ^ (-52 - -52))) = 2 ^ 52)
    by reflexivity.
  rewrite E1, E2. clear E1 E2.
  replace (s * 2 ^ 52 + 2 ^ 52) with ((s + 1) * 2 ^ 52) by lia.
  assert (Hq : 0 < (s + 1) * 2 ^ 52) by lia.
  destruct ((s + 1) * 2 ^ 52) as [|q|q] eqn:Eq; [lia| |lia].
  unfold binary_normalize, binary_round.
  pose proof (Zdigits2_log2 (Zpos q) eq_refl) as Hd. simpl Zdigits2 in Hd.
  rewrite Hd, <- Eq, Z.log2_mul_pow2 by lia. fold l'.
  replace (fexp prec emax (52 + l' + 1 + -52)) with (l' - 52)
    by (unfold fexp, emin, prec, emax; lia).
  rewrite shl_align_ge by lia.
  set (z := (s + 1) * 2 ^ (52 - l')).
  assert (Hlz : Z.log2 z = 52).
  { unfold z. rewrite Z.log2_mul_pow2 by lia. fold l'. lia. }
  pose proof (binary_round_aux_exact z (-52) l' Hlz ltac:(lia) ltac:(lia)) as Hr.
  replace (z * 2 ^ l') with (Zpos q) in Hr.
  - rewrite Hr. f_equal. lia.
  - rewrite <- Eq. unfold z. rewrite <- Z.mul_assoc, <- Z.pow_add_r by lia.
    by replace (52 - l' + l') with 52 by lia.
Qed.

Lemma to_double_canonical s :
  1 <= s < 2 ^ 53 -> Prim2SF (to_double s) = canonical s.
Proof.
  intros H. unfold to_double. rewrite of_uint63_spec, Uint63.of_Z_spec.
  assert (Uint63.wB = 9223372036854775808) as -> by reflexivity.
  rewrite Z.mod_small by lia.
  by apply binary_normalize_canonical.
Qed.

Lemma to_double_succ s :
  1 <= s -> s + 1 < 2 ^ 53 -> (to_double s + 1)%float = to_double (s + 1).
Proof.
  intros H1 H2. apply Prim2SF_inj.
  rewrite add_spec, !to_double_canonical, Prim2SF_one by lia.
  by apply add_one_canonical.
Qed.

(** [accountIdSeq++] on the double that holds the integer [s] gives the
    double that holds [increment s]. *)
Lemma increment_is_double_addition s :
  1 <= s <= exact_limit ->
  (to_double s + 1)%float = to_double (increment s).
Proof.
  intros H. unfold increment, exact_limit in *.
  destruct (Z.ltb_spec s 9007199254740992) as [Hlt|Hge].
  - destruct (Z.eq_dec s 9007199254740991) as [->|Hne]; [reflexivity|].
    apply to_double_succ; lia.
  - assert (s = 9007199254740992) as -> by lia. reflexivity.
Qed.






(** ** Invariants of every reachable state *)

Lemma find_by_id_spec i l w :
  Forall (fun r => is_Some (heap w !! r)) l ->
  exists found,
    find_by_id i l w = Some (found, w)
    /\ match found with
       | Some r => r ∈ l /\ exists a, heap w !! r = Some a /\ id a = i
       | None => forall r a, r ∈ l -> heap w !! r = Some a -> id a <> i
       end.
Proof.
  induction 1 as [|r l [a Ha] Hl IH]; simpl.
  - exists None. split; [done|]. intros r a Hr. by apply elem_of_nil in Hr.
  - rewrite (bind_run _ _ _ _ _ (read_run _ _ _ Ha)).
    destruct (id a =? i) eqn:Hi.
    + exists (Some r). split; [done|]. split; [by left|].
      exists a. split; [done|]. by apply Z.eqb_eq.
    + destruct IH as (found & Hf & Hspec). exists found. split; [done|].
      destruct found as [r'|].
      * destruct Hspec as [Hin Hex]. split; [by right|done].
      * intros r' a' Hr' Ha'. apply elem_of_cons in Hr' as [->|Hr'].
        -- pose proof (eq_trans (eq_sym Ha) Ha') as E. injection E as <-.
           by apply Z.eqb_neq.
        -- by eapply Hspec.
Qed.

Lemma applyStrategy_found app i key r a w :
  findAccountById app i w = Some (Some r, w) ->
  heap w !! r = Some a ->
  applyStrategy app i key w
  = Some (app,
          {| accountIdSeq := accountIdSeq w;
             heap := <[r := set_strategy a (strategy_after key (interestStrategy a))]>
                       (heap w);
             notifications := notifications w ++ [AppliedStrategy key (id a)] |}).
Proof.
  intros Hf Ha. unfold applyStrategy. rewrite (bind_run _ _ _ _ _ Hf).
  pose proof (fun s => setInterestStrategy_run r a s w Ha) as Hrun.
  assert (Hl : (r < length (heap w))%nat) by (by eapply lookup_lt_Some).
  assert (Hk : forall s,
    (setInterestStrategy r s ;;
     (let* i0 := account_id r in UI_notify (AppliedStrategy key i0) ;; ret app)) w
    = Some (app,
            {| accountIdSeq := accountIdSeq w;
               heap := <[r := set_strategy a s]> (heap w);
               notifications := notifications w ++ [AppliedStrategy key (id a)] |})).
  { intros s. rewrite (bind_run _ _ _ _ _ (Hrun s)).
    assert (H' : heap {| accountIdSeq := accountIdSeq w;
                         heap := <[r := set_strategy a s]> (heap w);
                         notifications := notifications w |} !! r
                 = Some (set_strategy a s)).
    { cbn [heap]. by apply list_lookup_insert_eq. }
    by rewrite (bind_run _ _ _ _ _ (account_id_run _ _ _ H')). }
  unfold strategy_after.
  destruct (String.eqb key "savings"); [apply Hk|].
  destruct (String.eqb key "fixed"); [apply Hk|].
  destruct (String.eqb key "current"); [apply Hk|].
  unfold bind at 1. unfold ret at 1.
  rewrite (bind_run _ _ _ _ _ (account_id_run _ _ _ Ha)).
  replace (set_strategy a (interestStrategy a)) with a by (by destruct a).
  rewrite list_insert_id by done. reflexivity.
Qed.

Lemma perform_effect op app w :
  App_ok app w ->
  exists app' w', perform op app w = Some (app', w') /\ effect app w app' w'.
Proof.
  intros Hok.
  assert (Hfind : forall i, exists found,
             findAccountById app i w = Some (found, w)
             /\ match found with
                | Some r => r ∈ accounts app
                            /\ exists a, heap w !! r = Some a /\ id a = i
                | None => forall r a, r ∈ accounts app ->
                                      heap w !! r = Some a -> id a <> i
                end).
  { intros i. apply find_by_id_spec. by destruct Hok. }
  assert (Hnote : forall n, effect app w app (noticed n w)).
  { intros n. by apply effect_none; [apply noticed_stable| |]. }
  assert (Hpush : forall c,
            refs_valid c w -> self_transfer c = false ->
            Forall (fun r => r ∈ accounts app) (touched c) ->
            exists app' w',
              (let* t := executeCommand (tm app) c in ret (with_tm app t)) w
              = Some (app', w') /\ effect app w app' w').
  { intros c Hv Hself Hin.
    destruct (executeCommand_ok app c w Hok Hv) as (w' & He & _ & Hs).
    eexists _, _. split; [exact He|]. by apply (effect_push _ _ _ _ c). }
  destruct op as [n|type idx init|i x|i x|fi ti x| |i key|i]; simpl.
  - eexists _, _. split; [reflexivity|].
    by apply effect_none; [apply noticed_stable| |].
  - destruct (customers app !! idx) as [o|] eqn:Ho.
    + rewrite (bind_run _ _ _ _ _ (createAccount_run _ type _ init _ w Ho)).
      eexists _, _. split; [reflexivity|]. by eapply effect_create.
    + unfold createAccount. rewrite Ho.
      eexists _, _. split; [reflexivity|]. apply Hnote.
  - unfold deposit. destruct (Hfind i) as (found & Hf & Hsp).
    rewrite (bind_run _ _ _ _ _ Hf). destruct found as [r|].
    + destruct Hsp as (Hin & a & Ha & _). apply Hpush; [|done|].
      * apply Forall_singleton. by eexists.
      * by apply Forall_singleton.
    + eexists _, _. split; [reflexivity|]. apply Hnote.
  - unfold withdraw. destruct (Hfind i) as (found & Hf & Hsp).
    rewrite (bind_run _ _ _ _ _ Hf). destruct found as [r|].
    + destruct Hsp as (Hin & a & Ha & _). apply Hpush; [|done|].
      * apply Forall_singleton. by eexists.
      * by apply Forall_singleton.
    + eexists _, _. split; [reflexivity|]. apply Hnote.
  - unfold transfer. destruct (Hfind fi) as (ff & Hff & Hsf).
    destruct (Hfind ti) as (ft & Hft & Hst).
    rewrite (bind_run _ _ _ _ _ Hff), (bind_run _ _ _ _ _ Hft).
    destruct ff as [f|]; [destruct ft as [t|]|].
    + destruct Hsf as (Hinf & af & Haf & _). destruct Hst as (Hint & at_ & Hat & _).
      rewrite (bind_run _ _ _ _ _ (account_id_run _ _ _ Haf)).
      rewrite (bind_run _ _ _ _ _ (account_id_run _ _ _ Hat)).
      destruct (id af =? id at_) eqn:Hid.
      * eexists _, _. split; [reflexivity|]. apply Hnote.
      * apply Hpush.
        -- apply Forall_cons. split; [by eexists|].
           apply Forall_singleton. by eexists.
        -- simpl. apply bool_decide_eq_false. intros ->.
           pose proof (eq_trans (eq_sym Haf) Hat) as E. injection E as <-.
           apply Z.eqb_neq in Hid. done.
        -- apply Forall_cons. split; [done|]. by apply Forall_singleton.
    + eexists _, _. split; [reflexivity|]. apply Hnote.
    + destruct ft; eexists _, _; (split; [reflexivity|]); apply Hnote.
  - unfold App_undoLast. destruct app as [cs acc [h]]. cbn [tm].
    destruct h as [|c h _] using rev_ind.
    + rewrite (bind_run _ _ _ _ _ (undoLast_empty_run w)).
      eexists _, _. split; [reflexivity|].
      by apply effect_none; [apply noticed_stable| |].
    + destruct Hok as (_ & Hhist & _). cbn [tm history] in Hhist.
      apply Forall_app in Hhist as [_ Hc]. rewrite Forall_singleton in Hc.
      destruct (undo_stable c w Hc) as (w' & Hu & Hs).
      unfold bind. rewrite undoLast_snoc_run, Hu.
      eexists _, _. split; [reflexivity|]. by apply (effect_pop _ _ _ _ c).
  - destruct (Hfind i) as (found & Hf & Hsp). destruct found as [r|].
    + destruct Hsp as (_ & a & Ha & _).
      rewrite (applyStrategy_found _ _ key _ _ _ Hf Ha).
      eexists _, _. split; [reflexivity|]. apply effect_none; [|done|done].
      apply (stable_trans _
               {| accountIdSeq := accountIdSeq w;
                  heap := <[r := set_strategy a (strategy_after key (interestStrategy a))]>
                            (heap w);
                  notifications := notifications w |}).
      * apply (stable_insert r a); [done|]. by repeat split.
      * split; [done|]. apply (stable_refl
          {| accountIdSeq := accountIdSeq w;
             heap := <[r := set_strategy a (strategy_after key (interestStrategy a))]>
                       (heap w);
             notifications := notifications w |}).
    + unfold applyStrategy. rewrite (bind_run _ _ _ _ _ Hf).
      eexists _, _. split; [reflexivity|]. apply Hnote.
  - unfold calcInterest. destruct (Hfind i) as (found & Hf & Hsp).
    unfold bind at 1 2. rewrite Hf. destruct found as [r|].
    + destruct Hsp as (_ & a & Ha & _).
      rewrite (calculateInterest_run _ _ _ Ha).
      eexists _, _. split; [reflexivity|].
      by apply effect_none; [apply stable_refl| |].
    + eexists _, _. split; [reflexivity|]. apply Hnote.
Qed.

Lemma App_tidy_init : App_tidy App_init World_init.
Proof.
  split; [intros i a Ha; by destruct i|]. split; [done|]. split; [done|].
  constructor.
Qed.

Lemma App_tidy_stable app app' w w' :
  App_tidy app w -> stable w w' -> accounts app' = accounts app ->
  Forall (fun c => self_transfer c = false) (history (tm app')) ->
  App_tidy app' w'.
Proof.
  intros (Hid & Hseq & Hacc & _) Hs Ha Hh.
  pose proof (stable_length _ _ Hs) as Hlen. destruct Hs as [Hs F].
  split; [|split; [|split]]; [|congruence|congruence|done].
  intros i a' Ha'.
  destruct (Forall2_lookup_r _ _ _ _ _ F Ha') as (a & Hia & (Hida & _)).
  rewrite Hida. by apply Hid.
Qed.

Lemma App_tidy_step app w app' w' :
  App_tidy app w -> effect app w app' w' -> App_tidy app' w'.
Proof.
  intros Ht Heff. pose proof Ht as (Hid & Hseq & Hacc & Hself).
  destruct Heff as [Hs Ha Hh|c Hs Ha Hh Hc _|c Hs Ha Hh|a Hheap Hida Hs Ha Hh].
  - eapply App_tidy_stable; [done..|]. by rewrite Hh.
  - eapply App_tidy_stable; [done..|]. rewrite Hh. apply Forall_app.
    split; [done|]. by apply Forall_singleton.
  - eapply App_tidy_stable; [done..|]. rewrite Hh in Hself.
    by apply Forall_app in Hself as [? _].
  - split; [|split; [|split]].
    + intros i x Hx. rewrite Hheap in Hx.
      apply lookup_snoc_Some in Hx as [[_ Hx]|[-> <-]]; [by apply Hid|].
      by rewrite Hida, Hseq.
    + rewrite Hs, Hseq, Hheap, length_app. simpl. unfold increment, exact_limit.
      destruct (Z.ltb_spec (Z.min (Z.of_nat (length (heap w)) + 1) 9007199254740992)
                  9007199254740992); lia.
    + rewrite Ha, Hacc, Hheap, length_app. simpl.
      by rewrite Nat.add_1_r, seq_S.
    + by rewrite Hh.
Qed.

Lemma perform_all_invariants ops app w app' w' :
  App_ok app w -> App_tidy app w ->
  perform_all ops app w = Some (app', w') ->
  App_ok app' w' /\ App_tidy app' w'.
Proof.
  revert app w. induction ops as [|op ops IH]; intros app w Hok Ht Hrun.
  - simpl in Hrun. unfold ret in Hrun. by simplify_eq.
  - destruct (perform_ok op app w Hok) as (app1 & w1 & H1 & Hok1 & _).
    destruct (perform_effect op app w Hok) as (app2 & w2 & H2 & Heff).
    rewrite H1 in H2. simplify_eq. simpl in Hrun.
    rewrite (bind_run _ _ _ _ _ H1) in Hrun.
    eapply IH; [exact Hok1| |exact Hrun]. by eapply App_tidy_step.
Qed.

Lemma reachable_invariants app w :
  reachable app w -> App_ok app w /\ App_tidy app w.
Proof.
  intros [ops Hrun].
  by eapply perform_all_invariants; [apply App_ok_init|apply App_tidy_init|].
Qed.

Lemma seeded_reachable a b : reachable seeded_app (seeded_world a b).
Proof.
  exists [OpAddCustomer "Shivani"; OpAddCustomer "Ravi";
          OpCreateAccount "savings" 0 a; OpCreateAccount "current" 1 b].
  reflexivity.
Qed.

Lemma reachable_ids app w :
  reachable app w ->
  (forall i a, heap w !! i = Some a -> id a = Z.min (Z.of_nat i + 1) exact_limit)
  /\ accountIdSeq w = Z.min (Z.of_nat (length (heap w)) + 1) exact_limit.
Proof.
  intros Hr. destruct (reachable_invariants _ _ Hr) as [_ (H1 & H2 & _)]. done.
Qed.

Lemma find_by_id_app i l1 l2 w :
  find_by_id i (l1 ++ l2) w
  = match find_by_id i l1 w with
    | Some (Some r, w') => Some (Some r, w')
    | Some (None, w') => find_by_id i l2 w'
    | None => None
    end.
Proof.
  induction l1 as [|r l1 IH]; [done|]. simpl. unfold bind, read.
  destruct (heap w !! r) as [a|]; [|done]. by destruct (id a =? i).
Qed.

(** Looking an id up among the first [m] accounts of a heap numbered
    1, 2, 3, ... up to 2^53. *)
Lemma find_by_id_numbered i m w :
  (forall j a, heap w !! j = Some a -> id a = Z.min (Z.of_nat j + 1) exact_limit) ->
  (m <= length (heap w))%nat ->
  find_by_id i (seq 0 m) w
  = Some (if bool_decide (1 <= i <= Z.min (Z.of_nat m) exact_limit)
          then Some (Z.to_nat (i - 1)) else None, w).
Proof.
  intros Hid. induction m as [|m IH]; intros Hm.
  - simpl. unfold ret. rewrite bool_decide_eq_false_2; [done|]. unfold exact_limit. lia.
  - rewrite seq_S, find_by_id_app, IH by lia. simpl.
    assert (Hlt : (m < length (heap w))%nat) by lia.
    destruct (lookup_lt_is_Some_2 _ _ Hlt) as [a Ha].
    pose proof (Hid m a Ha) as Hia. unfold exact_limit in *.
    case_bool_decide as H1.
    + rewrite bool_decide_eq_true_2; [done|]. lia.
    + rewrite (bind_run _ _ _ _ _ (read_run _ _ _ Ha)).
      destruct (id a =? i) eqn:Hi.
      * apply Z.eqb_eq in Hi. rewrite bool_decide_eq_true_2 by lia.
        unfold ret. do 3 f_equal. lia.
      * apply Z.eqb_neq in Hi. rewrite bool_decide_eq_false_2; [done|]. lia.
Qed.

(** * The claims *)

(** C1, as the code has it. When [execute] mutated state, [executeCommand]
    followed at once by [undoLast] gives back the history and the whole heap,
    so the pre-execute balance of every account the command touches,
    provided that adding the amount and taking it off again is exact in
    binary64 on those balances ([round_trip_exact]). *)
Theorem execute_then_undo_restores (t : TransactionManager) (cmd : Command)
    (w : World) :
  refs_valid cmd w ->
  aborts cmd w = false ->
  round_trip_exact cmd w ->
  exists w',
    execute_then_undo t cmd w = Some (t, w')
    /\ heap w' = heap w
    /\ forall r, r ∈ touched cmd -> balance_of w' r = balance_of w r.
Proof.
  intros Hv Hab Hex.
  cut (exists w', execute_then_undo t cmd w = Some (t, w') /\ heap w' = heap w).
  { intros (w' & H1 & H2). exists w'. repeat split; try done.
    intros r _. unfold balance_of. by rewrite H2. }
  rewrite execute_then_undo_run.
  replace {| history := history t |} with t by (by destruct t).
  unfold refs_valid in Hv. unfold aborts in Hab. unfold round_trip_exact in Hex.
  destruct cmd as [r x|r x|f t' x]; simpl in Hv, Hab.
  - apply Forall_singleton in Hv as [a Ha].
    specialize (Hex (_balance a)). unfold balance_of in Hex. rewrite Ha in Hex.
    rewrite (execute_deposit_run _ _ _ _ Ha).
    rewrite (undo_deposit_run r (set_balance a (_balance a + x)%float))
      by (by apply credited_lookup_eq).
    eexists. split; [done|]. simpl. rewrite list_insert_insert_eq.
    apply (insert_restore (heap w) r a); [done|]. by apply Hex.
  - apply Forall_singleton in Hv as [a Ha]. rewrite Ha in Hab.
    specialize (Hex (_balance a)). unfold balance_of in Hex. rewrite Ha in Hex.
    rewrite (execute_withdraw_run _ _ _ _ Ha Hab).
    rewrite (undo_withdraw_run r (set_balance a (_balance a + - x)%float))
      by (by apply credited_lookup_eq).
    eexists. split; [done|]. simpl. rewrite list_insert_insert_eq.
    apply (insert_restore (heap w) r a); [done|]. by apply Hex.
  - apply Forall_cons in Hv as [[af Hf] Hv].
    apply Forall_singleton in Hv as [at_ Ht]. rewrite Hf in Hab.
    assert (Hlf : (f < length (heap w))%nat) by (by eapply lookup_lt_Some).
    assert (Hlt : (t' < length (heap w))%nat) by (by eapply lookup_lt_Some).
    unfold balance_of in Hex. destruct (decide (f = t')) as [<-|Hne].
    + specialize (Hex (_balance af)). rewrite Hf in Hex. simplify_eq.
      rewrite (execute_transfer_run f f af af
                 (set_balance af (_balance af + - x)%float) x w Hf Hf Hab)
        by (by apply credited_lookup_eq).
      rewrite (undo_transfer_run f f
                 (set_balance af (_balance af + - x + x)%float)
                 (set_balance af (_balance af + - x + x + x)%float)).
      * eexists. split; [done|]. simpl. rewrite !list_insert_insert_eq.
        apply (insert_restore (heap w) f af); [done|]. by apply Hex.
      * simpl. rewrite list_insert_insert_eq. by apply list_lookup_insert_eq.
      * simpl. apply list_lookup_insert_eq. by rewrite !length_insert.
    + destruct Hex as [Hexf Hext].
      specialize (Hexf (_balance af)). rewrite Hf in Hexf.
      specialize (Hext (_balance at_)). rewrite Ht in Hext.
      rewrite (execute_transfer_run f t' af at_ at_ x w Hf Ht Hab)
        by (by rewrite credited_lookup_ne).
      rewrite (undo_transfer_run f t'
                 (set_balance af (_balance af + - x)%float)
                 (set_balance at_ (_balance at_ + x)%float)).
      * eexists. split; [done|]. simpl.
        rewrite (list_insert_insert_ne _ f t') by done.
        rewrite !list_insert_insert_eq.
        rewrite !set_balance_set_balance.
        rewrite (insert_restore (heap w) f af) by (try apply Hexf; done).
        apply (insert_restore (heap w) t' at_); [done|]. by apply Hext.
      * simpl. rewrite list_lookup_insert_ne by done.
        rewrite list_lookup_insert_eq; [done|]. by rewrite ?length_insert.
      * simpl. rewrite list_lookup_insert_ne by done.
        rewrite list_lookup_insert_eq; [done|]. by rewrite ?length_insert.
Qed.

Lemma execute_then_undo_restores_witness :
  exists w',
    execute_then_undo {| history := [] |} (TransferCommand 0 1 300)
      (seeded_world 1000 200) = Some ({| history := [] |}, w')
    /\ heap w' = heap (seeded_world 1000 200)
    /\ forall r, r ∈ [0%nat; 1%nat] ->
                 balance_of w' r = balance_of (seeded_world 1000 200) r.
Proof.
  apply (execute_then_undo_restores {| history := [] |}
           (TransferCommand 0 1 300) (seeded_world 1000 200)).
  - repeat constructor; by eexists.
  - reflexivity.
  - simpl. split; intros b Hb; injection Hb as <-; reflexivity.
Defined.

(** C1, as stated, fails on binary64 balances: depositing 0.2 on a balance of
    0.1 and undoing it leaves 0.10000000000000003. *)
Lemma execute_then_undo_inexact :
  refs_valid (DepositCommand 0 0.2) (seeded_world 0.1 500)
  /\ aborts (DepositCommand 0 0.2) (seeded_world 0.1 500) = false
  /\ exists w',
       execute_then_undo {| history := [] |} (DepositCommand 0 0.2)
         (seeded_world 0.1 500) = Some ({| history := [] |}, w')
       /\ balance_of (seeded_world 0.1 500) 0%nat = Some 0.1%float
       /\ balance_of w' 0%nat = Some 0.10000000000000003%float
       /\ balance_of w' 0%nat <> balance_of (seeded_world 0.1 500) 0%nat.
Proof.
  split; [repeat constructor; by eexists|]. split; [reflexivity|].
  eexists. split; [reflexivity|]. split; [reflexivity|].
  split; [reflexivity|]. vm_compute. discriminate.
Qed.

(** C2. [executeCommand(cmd)] runs [cmd.execute()] and then pushes [cmd] on
    the history, for every command, also when [execute] aborted on its
    insufficient-funds guard and left the heap as it was. The next [undoLast]
    pops that command and runs its [undo]; after an aborted command this
    adds the amount to a source balance from which nothing had been taken. *)
Theorem executeCommand_always_pushes (t : TransactionManager) (cmd : Command)
    (w : World) :
  refs_valid cmd w ->
  exists w1 w2,
    execute cmd w = Some (tt, w1)
    /\ executeCommand t cmd w = Some ({| history := history t ++ [cmd] |}, w1)
    /\ undo cmd w1 = Some (tt, w2)
    /\ undoLast {| history := history t ++ [cmd] |} w1
       = Some ({| history := history t |}, w2)
    /\ (aborts cmd w = true ->
        heap w1 = heap w
        /\ forall src amount b,
             source cmd = Some (src, amount) ->
             self_transfer cmd = false ->
             balance_of w src = Some b ->
             balance_of w2 src = Some (b + amount)%float).
Proof.
  intros Hv.
  destruct (execute_stable cmd w Hv) as (w1 & He & Hst).
  destruct (undo_stable cmd w1 (refs_valid_stable _ _ _ Hst Hv)) as (w2 & Hu & _).
  exists w1, w2. split; [done|]. split.
  { by rewrite executeCommand_run, He. }
  split; [done|]. split.
  { by rewrite undoLast_snoc_run, Hu. }
  intros Hab. unfold aborts in Hab.
  destruct (source cmd) as [[src amount]|] eqn:Hs; [|done].
  destruct (heap w !! src) as [a|] eqn:Ha; [|done].
  rewrite (execute_aborts_run _ _ _ _ _ Hs Ha Hab) in He. simplify_eq.
  split; [done|]. intros src' amount' b ? Hself Hb; simplify_eq.
  unfold balance_of in Hb. rewrite Ha in Hb. simpl in Hb. simplify_eq.
  eapply undo_source_balance; [exact Hs|exact Hself| |exact Hu]. exact Ha.
Qed.

Lemma executeCommand_always_pushes_witness :
  exists w1 w2,
    execute (WithdrawCommand 1 700) (seeded_world 1500 500) = Some (tt, w1)
    /\ executeCommand {| history := [] |} (WithdrawCommand 1 700) (seeded_world 1500 500)
       = Some ({| history := [WithdrawCommand 1 700] |}, w1)
    /\ undo (WithdrawCommand 1 700) w1 = Some (tt, w2)
    /\ undoLast {| history := [WithdrawCommand 1 700] |} w1
       = Some ({| history := [] |}, w2)
    /\ heap w1 = heap (seeded_world 1500 500)
    /\ balance_of w2 1%nat = Some 1200%float.
Proof.
  destruct (executeCommand_always_pushes {| history := [] |}
              (WithdrawCommand 1 700) (seeded_world 1500 500))
    as (w1 & w2 & H1 & H2 & H3 & H4 & H5).
  - repeat constructor; by eexists.
  - exists w1, w2. destruct (H5 eq_refl) as [H6 H7].
    repeat split; try assumption.
    exact (H7 1%nat 700%float 500%float eq_refl eq_refl eq_refl).
Defined.

(** C3. A Withdraw or Transfer whose amount is strictly greater than the
    balance of its (source) account aborts: [execute] leaves the whole heap,
    hence every balance, as it was, and posts exactly one notice, the
    operational failure notice carrying the id of that account; nothing is
    delivered to an observer. *)
Theorem insufficient_funds_aborts (c : Command) (src : ref) (amount : float)
    (a : Account) (w : World) :
  source c = Some (src, amount) ->
  heap w !! src = Some a ->
  (_balance a <? amount)%float = true ->
  exists w',
    execute c w = Some (tt, w')
    /\ heap w' = heap w
    /\ accountIdSeq w' = accountIdSeq w
    /\ notifications w' = notifications w ++ [failure_notice c (id a)]
    /\ is_operational (failure_notice c (id a)) = true.
Proof.
  intros Hs H Hlt. exists (noticed (failure_notice c (id a)) w).
  split; [by eapply execute_aborts_run|].
  repeat split. by destruct c.
Qed.

Lemma insufficient_funds_aborts_witness :
  exists w',
    execute (WithdrawCommand 1 700) (seeded_world 1500 500) = Some (tt, w')
    /\ heap w' = heap (seeded_world 1500 500)
    /\ accountIdSeq w' = 3
    /\ notifications w' = notifications (seeded_world 1500 500) ++ [WithdrawFailed 2]
    /\ true = true.
Proof.
  exact (insufficient_funds_aborts (WithdrawCommand 1 700) 1%nat 700
           {| id := 2; owner := ravi; _balance := 500; observers := [ravi];
              interestStrategy := CurrentInterest; typeName := Current |}
           (seeded_world 1500 500) eq_refl eq_refl eq_refl).
Defined.

(** C4. With an empty history, [undoLast] changes no account and no history
    and posts exactly one "nothing to undo" notice, on each of any number of
    calls in a row. *)
Theorem undoLast_empty_history (n : nat) (w : World) :
  undoLast_times n {| history := [] |} w
  = Some ({| history := [] |},
          {| accountIdSeq := accountIdSeq w;
             heap := heap w;
             notifications := notifications w ++ replicate n NothingToUndo |}).
Proof.
  revert w. induction n as [|n IH]; intros w; simpl.
  - unfold ret. rewrite app_nil_r. by destruct w.
  - unfold bind. rewrite undoLast_empty_run, IH. simpl.
    by rewrite <- app_assoc.
Qed.

(** C5. A Transfer whose guard passes (the source balance is not below the
    amount; [geb_not_ltb]: in particular when balance >= amount) debits the
    source with one [updateBalance] and then credits the destination with
    another, so the source's observers are notified before the destination's.
    [undo] credits the source and then debits the destination without
    testing anything. Scenario C: with A = 1000 and B = 200, transferring 300
    gives 700 and 500, and undoing gives 1000 and 200 again. *)
Theorem transfer_debits_then_credits (f t : ref) (amount : float)
    (af at_ : Account) (w : World) :
  heap w !! f = Some af ->
  heap w !! t = Some at_ ->
  ((_balance af <? amount)%float = false ->
   let w1 := credited f af (- amount)%float (ReasonTransferTo (id at_)) w in
   exists at1,
     heap w1 !! t = Some at1
     /\ (f <> t -> at1 = at_)
     /\ updateBalance f (- amount)%float (ReasonTransferTo (id at_)) w = Some (tt, w1)
     /\ updateBalance t amount (ReasonTransferFrom (id af)) w1
        = Some (tt, credited t at1 amount (ReasonTransferFrom (id af)) w1)
     /\ execute (TransferCommand f t amount) w
        = Some (tt, credited t at1 amount (ReasonTransferFrom (id af)) w1)
     /\ notifications (credited t at1 amount (ReasonTransferFrom (id af)) w1)
        = notifications w
          ++ posted af (ReasonTransferTo (id at_)) (- amount)%float
          ++ posted at1 (ReasonTransferFrom (id af)) amount)
  /\ (let w1 := credited f af amount (ReasonUndoTransferFrom (id af)) w in
      exists at1,
        heap w1 !! t = Some at1
        /\ (f <> t -> at1 = at_)
        /\ updateBalance f amount (ReasonUndoTransferFrom (id af)) w = Some (tt, w1)
        /\ updateBalance t (- amount)%float (ReasonUndoTransferTo (id at1)) w1
           = Some (tt, credited t at1 (- amount)%float (ReasonUndoTransferTo (id at1)) w1)
        /\ undo (TransferCommand f t amount) w
           = Some (tt, credited t at1 (- amount)%float (ReasonUndoTransferTo (id at1)) w1)
        /\ notifications (credited t at1 (- amount)%float (ReasonUndoTransferTo (id at1)) w1)
           = notifications w
             ++ posted af (ReasonUndoTransferFrom (id af)) amount
             ++ posted at1 (ReasonUndoTransferTo (id at1)) (- amount)%float)
  /\ result scenario_C_transfer World_init = Some (700, 500)%float
  /\ result scenario_C_undo World_init = Some (1000, 200)%float.
Proof.
  intros Hf Ht. split; [|split; [|split; reflexivity]].
  - intros Hlt w1.
    destruct (credited_is_Some f af (- amount)%float (ReasonTransferTo (id at_)) w t)
      as [at1 H1]; [by eexists|].
    exists at1. split; [exact H1|]. split.
    { intros Hne. subst w1. rewrite credited_lookup_ne in H1 by done. congruence. }
    split; [by apply updateBalance_run|].
    split; [by apply updateBalance_run|].
    split; [by apply execute_transfer_run|].
    simpl. by rewrite <- app_assoc.
  - intros w1.
    destruct (credited_is_Some f af amount (ReasonUndoTransferFrom (id af)) w t)
      as [at1 H1]; [by eexists|].
    exists at1. split; [exact H1|]. split.
    { intros Hne. subst w1. rewrite credited_lookup_ne in H1 by done. congruence. }
    split; [by apply updateBalance_run|].
    split; [by apply updateBalance_run|].
    split; [by apply undo_transfer_run|].
    simpl. by rewrite <- app_assoc.
Qed.

Lemma transfer_debits_then_credits_witness :
  exists w2,
    execute (TransferCommand 0 1 300) (seeded_world 1000 200) = Some (tt, w2)
    /\ balance_of w2 0%nat = Some 700%float
    /\ balance_of w2 1%nat = Some 500%float.
Proof.
  destruct (transfer_debits_then_credits 0%nat 1%nat 300%float
              {| id := 1; owner := shivani; _balance := 1000;
                 observers := [shivani]; interestStrategy := SavingsInterest;
                 typeName := Savings |}
              {| id := 2; owner := ravi; _balance := 200;
                 observers := [ravi]; interestStrategy := CurrentInterest;
                 typeName := Current |}
              (seeded_world 1000 200) eq_refl eq_refl) as [H _].
  destruct (H eq_refl) as (at1 & H1 & _ & _ & _ & H2 & _).
  eexists. split; [exact H2|].
  injection H1 as <-. split; reflexivity.
Defined.

(** C6. [calculateInterest()] returns the account's current strategy applied
    to its current balance and leaves the world, hence every balance, as it
    was. Savings gives balance * 0.03, FixedDeposit balance * 0.07, Current 0;
    an account built by each class starts with the matching strategy, the
    base (Generic) class with the Current one. Scenario A: a Savings account
    opened with 1500 yields 45. *)
Theorem calculateInterest_applies_strategy (r : ref) (a : Account) (w : World)
    (o : Customer) (init : float) (w0 : World) :
  heap w !! r = Some a ->
  calculateInterest r w = Some (calculate (interestStrategy a) (_balance a), w)
  /\ calculate SavingsInterest (_balance a) = (_balance a * 0.03)%float
  /\ calculate FixedDepositInterest (_balance a) = (_balance a * 0.07)%float
  /\ calculate CurrentInterest (_balance a) = 0%float
  /\ result (let* x := new_SavingsAccount o init in calculateInterest x) w0
     = Some (or_zero init * 0.03)%float
  /\ result (let* x := new_FixedDepositAccount o init in calculateInterest x) w0
     = Some (or_zero init * 0.07)%float
  /\ result (let* x := new_CurrentAccount o init in calculateInterest x) w0
     = Some 0%float
  /\ result (let* x := new_Account o init in calculateInterest x) w0
     = Some 0%float
  /\ result scenario_A World_init = Some 45%float.
Proof.
  intros H. split.
  { unfold calculateInterest, bind. by rewrite (read_run _ _ _ H). }
  do 3 (split; [reflexivity|]).
  assert (Hcalc : forall t s m,
    m w0 = Some (length (heap w0),
                 {| accountIdSeq := increment (accountIdSeq w0);
                    heap := heap w0 ++ [built (accountIdSeq w0) o init t s];
                    notifications := notifications w0 |}) ->
    result (let* x := m in calculateInterest x) w0
    = Some (calculate s (or_zero init))).
  { intros t s m Hm. unfold result, bind at 1. rewrite Hm.
    unfold calculateInterest, bind, read. cbn [heap].
    by rewrite lookup_snoc_last. }
  split; [apply (Hcalc Savings SavingsInterest), typed_constructor_run|].
  split; [apply (Hcalc FixedDeposit FixedDepositInterest), typed_constructor_run|].
  split; [apply (Hcalc Current CurrentInterest), typed_constructor_run|].
  split; [apply (Hcalc Generic CurrentInterest), new_Account_run|].
  reflexivity.
Qed.

Lemma calculateInterest_applies_strategy_witness :
  calculateInterest 0%nat (seeded_world 1500 500)
  = Some (45%float, seeded_world 1500 500).
Proof.
  exact (proj1 (calculateInterest_applies_strategy 0%nat
                  {| id := 1; owner := shivani; _balance := 1500;
                     observers := [shivani];
                     interestStrategy := SavingsInterest;
                     typeName := Savings |}
                  (seeded_world 1500 500) shivani 0%float World_init eq_refl)).
Defined.

(** C7. [attach] is idempotent: after one or more calls with the same
    observer the account is as after one call, the observer is once on the
    list, and each [updateBalance] delivers exactly one notice to it. *)
Theorem attach_idempotent (n : nat) (r : ref) (o : Customer) (a : Account)
    (w : World) :
  heap w !! r = Some a ->
  NoDup (observers a) ->
  exists w' a',
    attach_times (S n) r o w = Some (tt, w')
    /\ attach r o w = Some (tt, w')
    /\ heap w' !! r = Some a'
    /\ filter (fun c => c = o) (observers a') = [o]
    /\ forall delta reason,
         updateBalance r delta reason w'
         = Some (tt, credited r a' delta reason w')
         /\ delivered_to o (posted a' reason delta)
            = [ToCustomer o {| msg_id := id a'; msg_typeName := typeName a';
                               msg_reason := reason; msg_delta := delta;
                               msg_balance := (_balance a' + delta)%float |}].
Proof.
  intros H Hnd.
  destruct (attach_adds r o a w H Hnd) as (w' & a' & Hat & H' & Hnd' & Hin').
  exists w', a'. split.
  { simpl. unfold bind. rewrite Hat. by eapply attach_times_attached. }
  split; [done|]. split; [done|].
  pose proof (filter_eq_NoDup o _ Hnd' Hin') as Hf. split; [done|].
  intros delta reason. split; [by apply updateBalance_run|].
  rewrite delivered_to_posted, Hf. reflexivity.
Qed.

Lemma attach_idempotent_witness :
  exists w' a',
    attach_times 3 1%nat shivani (seeded_world 1500 500) = Some (tt, w')
    /\ attach 1%nat shivani (seeded_world 1500 500) = Some (tt, w')
    /\ heap w' !! 1%nat = Some a'
    /\ filter (fun c => c = shivani) (observers a') = [shivani].
Proof.
  destruct (attach_idempotent 2 1%nat shivani
              {| id := 2; owner := ravi; _balance := 500; observers := [ravi];
                 interestStrategy := CurrentInterest; typeName := Current |}
              (seeded_world 1500 500) eq_refl)
    as (w' & a' & H1 & H2 & H3 & H4 & _).
  - apply NoDup_singleton.
  - by exists w', a'.
Defined.

(** C8. [createAccount] with a valid owner index returns an account that has
    that owner as its one observer, and the owner stays attached whatever
    the page does next: after any run of operations, an [updateBalance] on
    the account delivers its notice, with the new balance, to the owner
    exactly once. *)
Theorem createAccount_attaches_owner (app : App) (w : World) (type : string)
    (idx : nat) (init : float) (o : Customer) (ops : list Op) :
  App_ok app w ->
  customers app !! idx = Some o ->
  exists r app1 w1 a1,
    createAccount app type idx init w = Some ((Some r, app1), w1)
    /\ heap w1 !! r = Some a1
    /\ owner a1 = o
    /\ observers a1 = [o]
    /\ exists app2 w2 a2,
         perform_all ops app1 w1 = Some (app2, w2)
         /\ heap w2 !! r = Some a2
         /\ owner a2 = o
         /\ o ∈ observers a2
         /\ forall delta reason,
              updateBalance r delta reason w2
              = Some (tt, credited r a2 delta reason w2)
              /\ notifications (credited r a2 delta reason w2)
                 = notifications w2 ++ posted a2 reason delta
              /\ delivered_to o (posted a2 reason delta)
                 = [ToCustomer o {| msg_id := id a2; msg_typeName := typeName a2;
                                    msg_reason := reason; msg_delta := delta;
                                    msg_balance := (_balance a2 + delta)%float |}].
Proof.
  intros Hok Ho. pose proof (createAccount_run app type idx init o w Ho) as Hc.
  pose proof (App_ok_created app w o init (fst (class_of type))
                (snd (class_of type)) Hok) as Hok1.
  eexists _, _, _, _. split; [exact Hc|]. split.
  { cbn [heap]. apply lookup_snoc_last. }
  split; [reflexivity|]. split; [reflexivity|].
  destruct (perform_all_ok ops _ _ Hok1) as (app2 & w2 & Hrun & Hok2 & Hp).
  destruct (Hp (length (heap w)) _ (lookup_snoc_last _ _))
    as (a2 & Ha2 & (Hid & Hown & Hobs)).
  exists app2, w2, a2. split; [exact Hrun|]. split; [exact Ha2|].
  split; [exact Hown|]. split.
  { rewrite Hobs. cbn. by apply list_elem_of_singleton. }
  intros delta reason. split; [by apply updateBalance_run|]. split; [done|].
  rewrite delivered_to_posted, Hobs. cbn [observers set_observers built].
  rewrite filter_cons_True by done. reflexivity.
Qed.

Lemma createAccount_attaches_owner_witness :
  exists r app1 w1 a1,
    createAccount {| customers := [shivani]; accounts := [];
                     tm := {| history := [] |} |} "savings" 0 1500 World_init
    = Some ((Some r, app1), w1)
    /\ heap w1 !! r = Some a1
    /\ owner a1 = shivani
    /\ observers a1 = [shivani].
Proof.
  destruct (createAccount_attaches_owner
              {| customers := [shivani]; accounts := [];
                 tm := {| history := [] |} |}
              World_init "savings" 0 1500 shivani [OpDeposit 1 50])
    as (r & app1 & w1 & a1 & H1 & H2 & H3 & H4 & _).
  - split; [constructor|]. split; [constructor|]. split; [constructor|].
    split; [|split]; [intros i j a b Ha; by destruct i | |done].
    intros i a Ha. by destruct i.
  - reflexivity.
  - by exists r, app1, w1, a1.
Defined.



(** C10. A deposit is not validated: for every amount, zero and negative
    ones included, [DepositCommand.execute] has no guard, adds the amount to
    the balance and posts no failure notice, and [App.deposit] runs it as
    soon as the account id is found. Depositing -150 on a balance of 100
    leaves -50. *)
Theorem deposit_unvalidated (app : App) (accountId : Z) (r : ref) (a : Account)
    (amount : float) (w : World) :
  heap w !! r = Some a ->
  findAccountById app accountId w = Some (Some r, w) ->
  execute (DepositCommand r amount) w
  = Some (tt, credited r a amount ReasonDeposit w)
  /\ balance_of (credited r a amount ReasonDeposit w) r
     = Some (_balance a + amount)%float
  /\ aborts (DepositCommand r amount) w = false
  /\ Forall (fun n => is_operational n = false) (posted a ReasonDeposit amount)
  /\ deposit app accountId amount w
     = Some (with_tm app {| history := history (tm app) ++ [DepositCommand r amount] |},
             credited r a amount ReasonDeposit w)
  /\ result negative_deposit World_init = Some (-50)%float
  /\ (-50 <? 0)%float = true.
Proof.
  intros H Hfind. pose proof (execute_deposit_run r a amount w H) as He.
  split; [exact He|]. split.
  { unfold balance_of. by rewrite credited_lookup_eq. }
  split; [reflexivity|]. split.
  { unfold posted. apply Forall_map. by apply Forall_true. }
  split; [|split; reflexivity].
  unfold deposit. rewrite (bind_run _ _ _ _ _ Hfind).
  unfold bind at 1. by rewrite executeCommand_run, He.
Qed.

Lemma deposit_unvalidated_witness :
  execute (DepositCommand 0 (-150)) (seeded_world 100 500)
  = Some (tt, credited 0%nat
                {| id := 1; owner := shivani; _balance := 100;
                            observers := [shivani];
                            interestStrategy := SavingsInterest;
                            typeName := Savings |}
                (-150)%float ReasonDeposit (seeded_world 100 500))
  /\ balance_of (credited 0%nat
                   {| id := 1; owner := shivani; _balance := 100;
                               observers := [shivani];
                               interestStrategy := SavingsInterest;
                               typeName := Savings |}
                   (-150)%float ReasonDeposit (seeded_world 100 500)) 0%nat
     = Some (-50)%float.
Proof.
  destruct (deposit_unvalidated seeded_app 1 0%nat
              {| id := 1; owner := shivani; _balance := 100;
                 observers := [shivani]; interestStrategy := SavingsInterest;
                 typeName := Savings |}
              (-150)%float (seeded_world 100 500) eq_refl eq_refl)
    as (H1 & H2 & _).
  split; [exact H1|exact H2].
Defined.

(** * Further properties of the code *)

(** ** Observers *)

Lemma filter_ne_filter_eq (o o' : Customer) (l : list Customer) :
  o' <> o ->
  filter (fun c => c = o') (filter (fun c => c <> o) l) = filter (fun c => c = o') l.
Proof.
  intros Hne. induction l as [|c l IH]; [done|].
  destruct (decide (c = o)) as [->|Hc].
  - rewrite (filter_cons_False (fun c => c <> o)) by (intros H; by apply H).
    rewrite (filter_cons_False (fun c => c = o')) by congruence. exact IH.
  - rewrite (filter_cons_True (fun c => c <> o)) by done.
    destruct (decide (c = o')) as [->|Hc'].
    + rewrite !(filter_cons_True (fun c => c = o')) by done. by rewrite IH.
    + rewrite !(filter_cons_False (fun c => c = o')) by done. exact IH.
Qed.

Lemma filter_ne_absent (o : Customer) (l : list Customer) :
  o ∉ l -> filter (fun c => c <> o) l = l.
Proof.
  induction l as [|c l IH]; [done|]. intros Hin.
  apply not_elem_of_cons in Hin as [Hne Hin].
  rewrite filter_cons_True by congruence. by rewrite IH.
Qed.

Lemma set_observers_same a : set_observers a (observers a) = a.
Proof. by destruct a. Qed.

(** X1. [detach(observer)] removes every occurrence of the observer: the
    next [updateBalance] on that account delivers nothing to it, and delivers
    to every other observer exactly what it would have delivered before. *)
Theorem detach_stops_delivery (r : ref) (o : Customer) (a : Account) (w : World) :
  heap w !! r = Some a ->
  exists w' a',
    detach r o w = Some (tt, w')
    /\ heap w' !! r = Some a'
    /\ _balance a' = _balance a
    /\ notifications w' = notifications w
    /\ forall delta reason,
         updateBalance r delta reason w'
         = Some (tt, credited r a' delta reason w')
         /\ delivered_to o (posted a' reason delta) = []
         /\ forall o', o' <> o ->
              delivered_to o' (posted a' reason delta)
              = delivered_to o' (posted a reason delta).
Proof.
  intros H. rewrite (detach_run _ _ _ _ H).
  eexists _, (set_observers a (filter (fun o' => o' <> o) (observers a))).
  split; [done|]. split.
  { cbn [heap]. apply list_lookup_insert_eq. by eapply lookup_lt_Some. }
  split; [done|]. split; [done|]. intros delta reason. split.
  { apply updateBalance_run. cbn [heap]. apply list_lookup_insert_eq.
    by eapply lookup_lt_Some. }
  split.
  - rewrite delivered_to_posted. cbn [observers set_observers].
    replace (filter (fun c => c = o) (filter (fun o' => o' <> o) (observers a)))
      with (@nil Customer); [done|].
    symmetry. induction (observers a) as [|c l IH]; [done|].
    destruct (decide (c = o)) as [->|Hc].
    + by rewrite (filter_cons_False (fun c => c <> o)) by (intros Hx; by apply Hx).
    + rewrite (filter_cons_True (fun c => c <> o)) by done.
      by rewrite (filter_cons_False (fun c => c = o)) by done.
  - intros o' Hne. rewrite !delivered_to_posted. cbn [observers set_observers].
    by rewrite filter_ne_filter_eq.
Qed.

Lemma detach_stops_delivery_witness :
  exists w' a',
    detach 0%nat shivani (seeded_world 1500 500) = Some (tt, w')
    /\ heap w' !! 0%nat = Some a'
    /\ delivered_to shivani (posted a' ReasonDeposit 10%float) = [].
Proof.
  destruct (detach_stops_delivery 0%nat shivani
              {| id := 1; owner := shivani; _balance := 1500;
                 observers := [shivani]; interestStrategy := SavingsInterest;
                 typeName := Savings |}
              (seeded_world 1500 500) eq_refl)
    as (w' & a' & H1 & H2 & _ & _ & H3).
  exists w', a'. split; [exact H1|]. split; [exact H2|].
  exact (proj1 (proj2 (H3 10%float ReasonDeposit))).
Defined.

(** X2. Detaching an observer that is not attached changes nothing, and
    attaching a new observer and detaching it again gives back the world as
    it was. *)
Theorem attach_detach_round_trip (r : ref) (o : Customer) (a : Account) (w : World) :
  heap w !! r = Some a ->
  o ∉ observers a ->
  detach r o w = Some (tt, w)
  /\ (attach r o ;; detach r o) w = Some (tt, w).
Proof.
  intros H Hin.
  assert (Hw : forall h, h = heap w ->
            {| accountIdSeq := accountIdSeq w; heap := h;
               notifications := notifications w |} = w).
  { intros h ->. by destruct w. }
  split.
  - rewrite (detach_run _ _ _ _ H), filter_ne_absent by done.
    rewrite set_observers_same. do 2 f_equal. apply Hw. by apply list_insert_id.
  - unfold bind. rewrite (attach_run _ _ _ _ H).
    rewrite bool_decide_eq_false_2 by done.
    rewrite (detach_run r o (set_observers a (observers a ++ [o])))
      by (cbn [heap]; apply list_lookup_insert_eq; by eapply lookup_lt_Some).
    cbn [heap accountIdSeq notifications observers set_observers].
    rewrite list_insert_insert_eq, filter_app, filter_ne_absent by done.
    rewrite filter_cons_False by (intros Hx; by apply Hx).
    rewrite filter_nil, app_nil_r.
    change (set_observers (set_observers a (observers a ++ [o])) (observers a))
      with (set_observers a (observers a)).
    rewrite set_observers_same. do 2 f_equal. apply Hw. by apply list_insert_id.
Qed.

Lemma attach_detach_round_trip_witness :
  (attach 0%nat ravi ;; detach 0%nat ravi) (seeded_world 1500 500)
  = Some (tt, seeded_world 1500 500).
Proof.
  refine (proj2 (attach_detach_round_trip 0%nat ravi
                   {| id := 1; owner := shivani; _balance := 1500;
                      observers := [shivani];
                      interestStrategy := SavingsInterest;
                      typeName := Savings |}
                   (seeded_world 1500 500) eq_refl _)).
  intros Hin. apply list_elem_of_singleton in Hin. discriminate.
Defined.

(** X3. Observers are notified in the order they were attached: a newly
    attached observer gets its notice after all the earlier ones, whose
    notices are what they were. *)
Theorem attach_notifies_last (r : ref) (o : Customer) (a : Account) (w : World) :
  heap w !! r = Some a ->
  o ∉ observers a ->
  exists w' a',
    attach r o w = Some (tt, w')
    /\ heap w' !! r = Some a'
    /\ forall delta reason,
         updateBalance r delta reason w'
         = Some (tt, credited r a' delta reason w')
         /\ posted a' reason delta
            = posted a reason delta
              ++ [ToCustomer o {| msg_id := id a; msg_typeName := typeName a;
                                  msg_reason := reason; msg_delta := delta;
                                  msg_balance := (_balance a + delta)%float |}].
Proof.
  intros H Hin. rewrite (attach_run _ _ _ _ H), bool_decide_eq_false_2 by done.
  assert (H' : <[r := set_observers a (observers a ++ [o])]> (heap w) !! r
               = Some (set_observers a (observers a ++ [o]))).
  { apply list_lookup_insert_eq. by eapply lookup_lt_Some. }
  eexists _, _. split; [done|]. split; [exact H'|].
  intros delta reason. split; [by apply updateBalance_run|].
  unfold posted. cbn [observers set_observers id typeName _balance].
  by rewrite map_app.
Qed.

Lemma attach_notifies_last_witness :
  exists w' a',
    attach 0%nat ravi (seeded_world 1500 500) = Some (tt, w')
    /\ heap w' !! 0%nat = Some a'
    /\ observers a' = [shivani; ravi].
Proof.
  destruct (attach_notifies_last 0%nat ravi
              {| id := 1; owner := shivani; _balance := 1500;
                 observers := [shivani]; interestStrategy := SavingsInterest;
                 typeName := Savings |}
              (seeded_world 1500 500) eq_refl) as (w' & a' & H1 & H2 & _).
  - intros Hin. apply list_elem_of_singleton in Hin. discriminate.
  - exists w', a'. split; [exact H1|]. split; [exact H2|].
    vm_compute in H1. injection H1 as <-. vm_compute in H2. by injection H2 as <-.
Defined.

(** ** Commands and their history *)

Lemma balances_only_refl w : balances_only w w.
Proof.
  split; [done|]. split; [done|]. intros r a Ha. exists a.
  split; [done|]. by destruct a.
Qed.

Lemma balances_only_trans w1 w2 w3 :
  balances_only w1 w2 -> balances_only w2 w3 -> balances_only w1 w3.
Proof.
  intros (Hs1 & Hl1 & H1) (Hs2 & Hl2 & H2).
  split; [congruence|]. split; [congruence|]. intros r a Ha.
  destruct (H1 r a Ha) as (b & Hb & Eb). destruct (H2 r b Hb) as (c & Hc & Ec).
  exists c. split; [done|]. rewrite Ec at 1. rewrite Eb. reflexivity.
Qed.

Lemma credited_balances_only r a delta reason w :
  heap w !! r = Some a -> balances_only w (credited r a delta reason w).
Proof.
  intros H. split; [done|]. split; [apply credited_length|].
  intros r' a' Ha'. destruct (decide (r = r')) as [<-|Hne].
  - pose proof (eq_trans (eq_sym H) Ha') as E. injection E as <-.
    eexists. split; [by apply credited_lookup_eq|reflexivity].
  - exists a'. split; [by rewrite credited_lookup_ne|by destruct a'].
Qed.

Lemma noticed_balances_only n w : balances_only w (noticed n w).
Proof. apply (balances_only_refl w). Qed.

(** X4. Running or undoing a command changes nothing but balances and posted
    notices: every account keeps its id, owner, observers, strategy and type
    name, the id counter stays, and an account the command holds no
    reference to is exactly as it was. *)
Theorem commands_touch_only_balances (c : Command) (w : World) :
  refs_valid c w ->
  (exists w',
      execute c w = Some (tt, w')
      /\ balances_only w w'
      /\ forall r, r ∉ touched c -> heap w' !! r = heap w !! r)
  /\ (exists w',
         undo c w = Some (tt, w')
         /\ balances_only w w'
         /\ forall r, r ∉ touched c -> heap w' !! r = heap w !! r).
Proof.
  unfold refs_valid. destruct c as [r x|r x|f t x]; simpl touched; intros Hv.
  - apply Forall_singleton in Hv as [a Ha]. split.
    + eexists. split; [by apply execute_deposit_run|].
      split; [by apply credited_balances_only|].
      intros r' Hr'. apply credited_lookup_ne. intros ->. apply Hr'.
        apply list_elem_of_singleton; done.
    + eexists. split; [by apply undo_deposit_run|].
      split; [by apply credited_balances_only|].
      intros r' Hr'. apply credited_lookup_ne. intros ->. apply Hr'.
        apply list_elem_of_singleton; done.
  - apply Forall_singleton in Hv as [a Ha]. split.
    + destruct (_balance a <? x)%float eqn:Hlt.
      * eexists. split; [by eapply execute_aborts_run|].
        split; [apply noticed_balances_only|done].
      * eexists. split; [by apply execute_withdraw_run|].
        split; [by apply credited_balances_only|].
        intros r' Hr'. apply credited_lookup_ne. intros ->. apply Hr'.
        apply list_elem_of_singleton; done.
    + eexists. split; [by apply undo_withdraw_run|].
      split; [by apply credited_balances_only|].
      intros r' Hr'. apply credited_lookup_ne. intros ->. apply Hr'.
        apply list_elem_of_singleton; done.
  - apply Forall_cons in Hv as [[af Hf] Hv].
    apply Forall_singleton in Hv as [at_ Ht].
    assert (Hout : forall r', r' ∉ [f; t] -> f <> r' /\ t <> r').
    { intros r' Hr'. split; intros ->; apply Hr'; apply elem_of_cons;
        [by left|right; apply list_elem_of_singleton; done]. }
    split.
    + destruct (_balance af <? x)%float eqn:Hlt.
      * eexists. split; [by eapply execute_aborts_run|].
        split; [apply noticed_balances_only|done].
      * destruct (credited_is_Some f af (- x)%float (ReasonTransferTo (id at_)) w t)
          as [at1 H1]; [by eexists|].
        eexists. split; [by eapply execute_transfer_run|]. split.
        { apply (balances_only_trans _
                   (credited f af (- x)%float (ReasonTransferTo (id at_)) w));
            by apply credited_balances_only. }
        intros r' Hr'. destruct (Hout r' Hr') as [Hnf Hnt].
        by rewrite !credited_lookup_ne.
    + destruct (credited_is_Some f af x (ReasonUndoTransferFrom (id af)) w t)
        as [at1 H1]; [by eexists|].
      eexists. split; [by eapply undo_transfer_run|]. split.
      { apply (balances_only_trans _
                 (credited f af x (ReasonUndoTransferFrom (id af)) w));
          by apply credited_balances_only. }
      intros r' Hr'. destruct (Hout r' Hr') as [Hnf Hnt].
      by rewrite !credited_lookup_ne.
Qed.

Lemma commands_touch_only_balances_witness :
  exists w',
    execute (TransferCommand 0 1 300) (seeded_world 1000 200) = Some (tt, w')
    /\ balances_only (seeded_world 1000 200) w'.
Proof.
  destruct (commands_touch_only_balances (TransferCommand 0 1 300)
              (seeded_world 1000 200)) as [(w' & H1 & H2 & _) _].
  - repeat constructor; by eexists.
  - by exists w'.
Defined.

(** X5. Deposits made one after the other add up from left to right in
    double arithmetic: the account ends with the fold of [+] over the
    amounts, every deposit is on the history in order, each one notified
    every observer once, and no other account changed. *)
Theorem deposits_add_up (r : ref) (xs : list float) (a : Account)
    (t : TransactionManager) (w : World) :
  heap w !! r = Some a ->
  exists w',
    executeCommands t (map (DepositCommand r) xs) w
    = Some ({| history := history t ++ map (DepositCommand r) xs |}, w')
    /\ balance_of w' r = Some (fold_left PrimFloat.add xs (_balance a))
    /\ (forall r', r' <> r -> heap w' !! r' = heap w !! r')
    /\ length (notifications w')
       = (length (notifications w) + length xs * length (observers a))%nat.
Proof.
  revert a t w. induction xs as [|x xs IH]; intros a t w H.
  - exists w. simpl. rewrite app_nil_r. split; [by destruct t|].
    split; [unfold balance_of; by rewrite H|]. split; [done|lia].
  - simpl. rewrite (bind_run _ _ _ _ _
      (eq_trans (executeCommand_run t (DepositCommand r x) w)
         (f_equal (fun o => match o with
                            | Some (_, w1) =>
                                Some ({| history := history t ++ [DepositCommand r x] |}, w1)
                            | None => None
                            end) (execute_deposit_run r a x w H)))).
    destruct (IH (set_balance a (_balance a + x)%float)
                {| history := history t ++ [DepositCommand r x] |}
                (credited r a x ReasonDeposit w))
      as (w' & Hrun & Hbal & Hframe & Hlen); [by apply credited_lookup_eq|].
    exists w'. cbn [history] in Hrun. rewrite <- app_assoc in Hrun.
    split; [exact Hrun|]. split; [exact Hbal|]. split.
    + intros r' Hne. rewrite Hframe by done. by apply credited_lookup_ne.
    + rewrite Hlen. cbn [notifications credited observers set_balance].
      unfold posted. rewrite length_app, length_map. lia.
Qed.

Lemma deposits_add_up_witness :
  exists w',
    executeCommands {| history := [] |}
      [DepositCommand 0 100; DepositCommand 0 50] (seeded_world 1500 500)
    = Some ({| history := [DepositCommand 0 100; DepositCommand 0 50] |}, w')
    /\ balance_of w' 0%nat = Some 1650%float.
Proof.
  destruct (deposits_add_up 0%nat [100%float; 50%float]
              {| id := 1; owner := shivani; _balance := 1500;
                 observers := [shivani]; interestStrategy := SavingsInterest;
                 typeName := Savings |}
              {| history := [] |} (seeded_world 1500 500) eq_refl)
    as (w' & H1 & H2 & _).
  by exists w'.
Defined.

Lemma posted_not_operational a reason delta :
  Forall (fun n => is_operational n = false) (posted a reason delta).
Proof. unfold posted. apply Forall_map. by apply Forall_true. Qed.

(** A reversal posts observer notices only. *)
Lemma undo_posts_updates c w :
  refs_valid c w ->
  exists w' ns,
    undo c w = Some (tt, w')
    /\ stable w w'
    /\ notifications w' = notifications w ++ ns
    /\ Forall (fun n => is_operational n = false) ns.
Proof.
  unfold refs_valid. destruct c as [r x|r x|f t x]; simpl touched; intros Hv.
  - apply Forall_singleton in Hv as [a Ha]. eexists _, _.
    split; [by apply undo_deposit_run|]. split; [by apply credited_stable|].
    split; [reflexivity|apply posted_not_operational].
  - apply Forall_singleton in Hv as [a Ha]. eexists _, _.
    split; [by apply undo_withdraw_run|]. split; [by apply credited_stable|].
    split; [reflexivity|apply posted_not_operational].
  - apply Forall_cons in Hv as [[af Hf] Hv].
    apply Forall_singleton in Hv as [at_ Ht].
    destruct (credited_is_Some f af x (ReasonUndoTransferFrom (id af)) w t)
      as [at1 H1]; [by eexists|].
    eexists _, _. split; [by eapply undo_transfer_run|]. split.
    { apply (stable_trans _ (credited f af x (ReasonUndoTransferFrom (id af)) w));
        by apply credited_stable. }
    split.
    + cbn [notifications credited]. rewrite <- app_assoc. reflexivity.
    + apply Forall_app. split; apply posted_not_operational.
Qed.

Lemma undoLast_times_snoc n h c w :
  undoLast_times (S n) {| history := h ++ [c] |} w
  = match undo c w with
    | Some (_, w1) => undoLast_times n {| history := h |} w1
    | None => None
    end.
Proof.
  cbn [undoLast_times]. unfold bind. rewrite undoLast_snoc_run.
  by destruct (undo c w) as [[[] w1]|].
Qed.

(** [n] calls of [undoLast] on a history of [n] commands are the reversals of
    those commands, newest first, and one more call is the notice. *)
Lemma undoLast_times_reversals h w :
  undoLast_times (length h) {| history := h |} w
  = match forEach undo (reverse h) w with
    | Some (_, w') => Some ({| history := [] |}, w')
    | None => None
    end
  /\ undoLast_times (S (length h)) {| history := h |} w
     = match forEach undo (reverse h) w with
       | Some (_, w') => Some ({| history := [] |}, noticed NothingToUndo w')
       | None => None
       end.
Proof.
  revert w. induction h as [|c h IH] using rev_ind; intros w; [done|].
  rewrite length_app, Nat.add_1_r, reverse_snoc. cbn [forEach].
  rewrite !undoLast_times_snoc. unfold bind.
  destruct (undo c w) as [[[] w1]|]; [|done]. apply IH.
Qed.

Lemma forEach_undo_deposits r ys a w :
  heap w !! r = Some a ->
  exists w',
    forEach undo (map (DepositCommand r) ys) w = Some (tt, w')
    /\ balance_of w' r
       = Some (fold_left (fun b x => (b + - x)%float) ys (_balance a)).
Proof.
  revert a w. induction ys as [|y ys IH]; intros a w H.
  - exists w. split; [done|]. unfold balance_of. by rewrite H.
  - simpl. rewrite (bind_run _ _ _ _ _ (undo_deposit_run r a y w H)).
    apply (IH (set_balance a (_balance a + - y)%float)).
    by apply credited_lookup_eq.
Qed.

Lemma reverse_map_commute {A B} (f : A -> B) (l : list A) :
  reverse (map f l) = map f (reverse l).
Proof.
  induction l as [|x l IH]; [done|]. simpl.
  by rewrite !reverse_cons, map_app, IH.
Qed.

(** X6. Undoing as many times as the history is long runs the reversal of
    every recorded command, newest first, and leaves the history empty;
    those calls post observer notices only, and the next call posts
    "nothing to undo" and changes nothing else. On a history of deposits on
    one account the balance ends with every amount taken off again, the
    last deposit first. *)
Theorem undo_everything (t : TransactionManager) (w : World) :
  Forall (fun c => refs_valid c w) (history t) ->
  exists w' ns,
    forEach undo (reverse (history t)) w = Some (tt, w')
    /\ undoLast_times (length (history t)) t w = Some ({| history := [] |}, w')
    /\ stable w w'
    /\ notifications w' = notifications w ++ ns
    /\ Forall (fun n => is_operational n = false) ns
    /\ undoLast_times (S (length (history t))) t w
       = Some ({| history := [] |}, noticed NothingToUndo w')
    /\ forall r xs a,
         history t = map (DepositCommand r) xs ->
         heap w !! r = Some a ->
         balance_of w' r
         = Some (fold_left (fun b x => (b + - x)%float) (reverse xs) (_balance a)).
Proof.
  destruct t as [h]. cbn [history]. intros Hv.
  assert (Hruns : exists w' ns,
            forEach undo (reverse h) w = Some (tt, w')
            /\ stable w w'
            /\ notifications w' = notifications w ++ ns
            /\ Forall (fun n => is_operational n = false) ns).
  { revert w Hv. induction h as [|c h IH] using rev_ind; intros w Hv.
    - exists w, []. split; [done|]. split; [apply stable_refl|].
      split; [by rewrite app_nil_r|constructor].
    - apply Forall_app in Hv as [Hh Hc]. rewrite Forall_singleton in Hc.
      destruct (undo_posts_updates c w Hc) as (w1 & ns1 & Hu & Hs1 & Hn1 & Hop1).
      destruct (IH w1) as (w' & ns & Hrun & Hs & Hn & Hop).
      { eapply Forall_impl; [exact Hh|]. intros c'. by apply refs_valid_stable. }
      exists w', (ns1 ++ ns). rewrite reverse_snoc. cbn [forEach].
      rewrite (bind_run _ _ _ _ _ Hu).
      split; [done|]. split; [by eapply stable_trans|].
      split; [by rewrite Hn, Hn1, app_assoc|by apply Forall_app]. }
  destruct Hruns as (w' & ns & Hrun & Hs & Hn & Hop).
  destruct (undoLast_times_reversals h w) as [H1 H2]. rewrite Hrun in H1, H2.
  exists w', ns. do 6 (split; [done|]).
  intros r xs a -> Ha. rewrite reverse_map_commute in Hrun.
  destruct (forEach_undo_deposits r (reverse xs) a w Ha) as (w2 & Hrun2 & Hbal).
  rewrite Hrun in Hrun2. by simplify_eq.
Qed.

Lemma undo_everything_witness :
  exists w' ns,
    forEach undo [DepositCommand 0 50; DepositCommand 0 100] (seeded_world 1500 500)
    = Some (tt, w')
    /\ undoLast_times 2 {| history := [DepositCommand 0 100; DepositCommand 0 50] |}
         (seeded_world 1500 500)
       = Some ({| history := [] |}, w')
    /\ notifications w' = notifications (seeded_world 1500 500) ++ ns
    /\ balance_of w' 0%nat = Some 1350%float.
Proof.
  destruct (undo_everything
              {| history := [DepositCommand 0 100; DepositCommand 0 50] |}
              (seeded_world 1500 500))
    as (w' & ns & H1 & H2 & _ & H3 & _ & _ & H4).
  - repeat constructor; by eexists.
  - exists w', ns. split; [exact H1|]. split; [exact H2|]. split; [exact H3|].
    exact (H4 0%nat [100%float; 50%float]
             {| id := 1; owner := shivani; _balance := 1500;
                observers := [shivani]; interestStrategy := SavingsInterest;
                typeName := Savings |} eq_refl eq_refl).
Defined.

(** ** What the insufficient-funds guard lets through *)

Lemma is_nan_Prim2SF x : PrimFloat.is_nan x = true -> Prim2SF x = SpecFloat.S754_nan.
Proof. intros H. unfold Prim2SF. by rewrite H. Qed.

Lemma Prim2SF_is_nan x : Prim2SF x = SpecFloat.S754_nan -> PrimFloat.is_nan x = true.
Proof.
  intros H. unfold PrimFloat.is_nan. by rewrite (FloatAxioms.eqb_spec x x), H.
Qed.

Lemma ltb_nan_r b x : PrimFloat.is_nan x = true -> (b <? x)%float = false.
Proof.
  intros H. rewrite ltb_spec, (is_nan_Prim2SF x H).
  unfold SpecFloat.SFltb. by destruct (Prim2SF b).
Qed.

Lemma opp_is_nan x : PrimFloat.is_nan x = true -> PrimFloat.is_nan (- x)%float = true.
Proof.
  intros H. apply Prim2SF_is_nan. by rewrite opp_spec, (is_nan_Prim2SF x H).
Qed.

Lemma add_nan_r b x :
  PrimFloat.is_nan x = true -> PrimFloat.is_nan (b + x)%float = true.
Proof.
  intros H. apply Prim2SF_is_nan. rewrite add_spec, (is_nan_Prim2SF x H).
  unfold SF64add, SpecFloat.SFadd. by destruct (Prim2SF b).
Qed.

Lemma add_nan_l b x :
  PrimFloat.is_nan b = true -> PrimFloat.is_nan (b + x)%float = true.
Proof.
  intros H. apply Prim2SF_is_nan. by rewrite add_spec, (is_nan_Prim2SF b H).
Qed.

Lemma credited_nan_amount r a delta reason w :
  heap w !! r = Some a ->
  PrimFloat.is_nan delta = true ->
  balance_is_nan (credited r a delta reason w) r.
Proof.
  intros Ha Hd. unfold balance_is_nan, balance_of.
  rewrite credited_lookup_eq by done. eexists. split; [done|].
  by apply add_nan_r.
Qed.

Lemma credited_keeps_nan r' a' delta reason w r :
  heap w !! r' = Some a' ->
  balance_is_nan w r ->
  balance_is_nan (credited r' a' delta reason w) r.
Proof.
  intros Ha' (b & Hb & Hnan). unfold balance_is_nan, balance_of in *.
  destruct (decide (r' = r)) as [->|Hne].
  - rewrite credited_lookup_eq by done.
    pose proof (eq_trans (eq_sym (f_equal (fmap _balance) Ha')) Hb) as E.
    injection E as E. eexists. split; [done|]. simpl. rewrite E.
    by apply add_nan_l.
  - rewrite credited_lookup_ne by done. by exists b.
Qed.

(** Whatever command runs next, with whatever amount, a NaN balance is NaN
    afterwards. *)
Lemma execute_keeps_nan c w r :
  refs_valid c w -> balance_is_nan w r ->
  exists w', execute c w = Some (tt, w') /\ balance_is_nan w' r.
Proof.
  unfold refs_valid. destruct c as [r0 x|r0 x|f t x]; simpl touched; intros Hv Hn.
  - apply Forall_singleton in Hv as [a Ha]. eexists.
    split; [by apply execute_deposit_run|]. by apply credited_keeps_nan.
  - apply Forall_singleton in Hv as [a Ha].
    destruct (_balance a <? x)%float eqn:Hlt.
    + eexists. split; [by eapply execute_aborts_run|]. exact Hn.
    + eexists. split; [by apply execute_withdraw_run|]. by apply credited_keeps_nan.
  - apply Forall_cons in Hv as [[af Hf] Hv].
    apply Forall_singleton in Hv as [at_ Ht].
    destruct (_balance af <? x)%float eqn:Hlt.
    + eexists. split; [by eapply execute_aborts_run|]. exact Hn.
    + destruct (credited_is_Some f af (- x)%float (ReasonTransferTo (id at_)) w t)
        as [at1 H1]; [by eexists|].
      eexists. split; [by eapply execute_transfer_run|].
      apply credited_keeps_nan; [done|]. by apply credited_keeps_nan.
Qed.

(** No reversal repairs it either. *)
Lemma undo_keeps_nan c w r :
  refs_valid c w -> balance_is_nan w r ->
  exists w', undo c w = Some (tt, w') /\ balance_is_nan w' r.
Proof.
  unfold refs_valid. destruct c as [r0 x|r0 x|f t x]; simpl touched; intros Hv Hn.
  - apply Forall_singleton in Hv as [a Ha]. eexists.
    split; [by apply undo_deposit_run|]. by apply credited_keeps_nan.
  - apply Forall_singleton in Hv as [a Ha]. eexists.
    split; [by apply undo_withdraw_run|]. by apply credited_keeps_nan.
  - apply Forall_cons in Hv as [[af Hf] Hv].
    apply Forall_singleton in Hv as [at_ Ht].
    destruct (credited_is_Some f af x (ReasonUndoTransferFrom (id af)) w t)
      as [at1 H1]; [by eexists|].
    eexists. split; [by eapply undo_transfer_run|].
    apply credited_keeps_nan; [done|]. by apply credited_keeps_nan.
Qed.

Lemma execute_nan c w :
  refs_valid c w ->
  PrimFloat.is_nan (amount_of c) = true ->
  exists w',
    execute c w = Some (tt, w')
    /\ stable w w'
    /\ forall r, r ∈ touched c -> balance_is_nan w' r.
Proof.
  intros Hv Hnan. unfold refs_valid in Hv.
  destruct c as [r amount|r amount|f t amount]; simpl in Hnan, Hv.
  - apply Forall_singleton in Hv as [a Ha]. eexists.
    split; [by apply execute_deposit_run|]. split; [by apply credited_stable|].
    intros r' ->%list_elem_of_singleton. by apply credited_nan_amount.
  - apply Forall_singleton in Hv as [a Ha]. eexists.
    split; [apply execute_withdraw_run; [done|by apply ltb_nan_r]|].
    split; [by apply credited_stable|].
    intros r' ->%list_elem_of_singleton.
    by apply credited_nan_amount, opp_is_nan.
  - apply Forall_cons in Hv as [[af Hf] Hv].
    apply Forall_singleton in Hv as [at_ Ht].
    destruct (credited_is_Some f af (- amount)%float (ReasonTransferTo (id at_)) w t)
      as [at1 H1]; [by eexists|].
    eexists. split.
    { eapply execute_transfer_run; [done|done|by apply ltb_nan_r|exact H1]. }
    split.
    { apply (stable_trans _ (credited f af (- amount)%float (ReasonTransferTo (id at_)) w));
        by apply credited_stable. }
    intros r' Hr'. destruct (decide (r' = t)) as [->|Hne].
    + by apply credited_nan_amount.
    + apply elem_of_cons in Hr' as [->|Hr'];
        [|by apply list_elem_of_singleton in Hr'].
      apply credited_keeps_nan; [done|].
      by apply credited_nan_amount, opp_is_nan.
Qed.

(** X7. A NaN amount is never rejected: the guard [balance < amount] is false
    for it, so a Deposit, Withdraw or Transfer with a NaN amount runs and
    leaves NaN as the balance of every account it touches. Undoing the
    command does not repair it: [undo] runs and those balances are still
    NaN. Nor does anything later: on any ledger, an account whose balance is
    NaN has a NaN balance after [updateBalance] with any delta, and after
    [execute] and [undo] of any command with any amount. *)
Theorem nan_amount_poisons (c : Command) (w : World) :
  refs_valid c w ->
  PrimFloat.is_nan (amount_of c) = true ->
  aborts c w = false
  /\ (exists w' w'',
        execute c w = Some (tt, w')
        /\ (forall r, r ∈ touched c -> balance_is_nan w' r)
        /\ undo c w' = Some (tt, w'')
        /\ (forall r, r ∈ touched c -> balance_is_nan w'' r))
  /\ forall w0 r,
       balance_is_nan w0 r ->
       (forall delta reason,
          exists w2, updateBalance r delta reason w0 = Some (tt, w2)
                     /\ balance_is_nan w2 r)
       /\ forall c2, refs_valid c2 w0 ->
            (exists w2, execute c2 w0 = Some (tt, w2) /\ balance_is_nan w2 r)
            /\ (exists w2, undo c2 w0 = Some (tt, w2) /\ balance_is_nan w2 r).
Proof.
  intros Hv Hnan. split; [|split].
  - unfold aborts. destruct c as [r x|r x|f t x]; simpl in *; [done| |].
    + destruct (heap w !! r) as [a|]; [|done]. by apply ltb_nan_r.
    + destruct (heap w !! f) as [a|]; [|done]. by apply ltb_nan_r.
  - destruct (execute_nan c w Hv Hnan) as (w' & He & Hs & Hb).
    pose proof (refs_valid_stable c w w' Hs Hv) as Hv'.
    assert (Hu : exists w'', undo c w' = Some (tt, w'')) by
      (destruct (undo_posts_updates c w' Hv') as (w'' & ? & ? & _); by exists w'').
    destruct Hu as (w'' & Hu). exists w', w''.
    split; [done|]. split; [done|]. split; [done|].
    intros r Hr. destruct (undo_keeps_nan c w' r Hv' (Hb r Hr)) as (w2 & Hu2 & Hn2).
    rewrite Hu in Hu2. by simplify_eq.
  - intros w0 r Hn. split.
    + intros delta reason. pose proof Hn as (b & Hb & _).
      unfold balance_of in Hb. destruct (heap w0 !! r) as [a|] eqn:Ha; [|done].
      eexists. split; [by apply updateBalance_run|].
      by apply credited_keeps_nan.
    + intros c2 Hv2. split; [by apply execute_keeps_nan|by apply undo_keeps_nan].
Qed.

Lemma nan_amount_poisons_witness :
  aborts (WithdrawCommand 1 nan) (seeded_world 1500 500) = false
  /\ exists w' w'',
       execute (WithdrawCommand 1 nan) (seeded_world 1500 500) = Some (tt, w')
       /\ (forall r, r ∈ [1%nat] -> balance_is_nan w' r)
       /\ undo (WithdrawCommand 1 nan) w' = Some (tt, w'')
       /\ (forall r, r ∈ [1%nat] -> balance_is_nan w'' r).
Proof.
  destruct (nan_amount_poisons (WithdrawCommand 1 nan)
              (seeded_world 1500 500)) as (H1 & H2 & _).
  - repeat constructor; by eexists.
  - reflexivity.
  - split; [exact H1|exact H2].
Defined.

Lemma Prim2SF_zero : Prim2SF 0%float = SpecFloat.S754_zero false.
Proof. reflexivity. Qed.

Lemma ltb_negative_nonnegative b x :
  (x <? 0)%float = true -> (0 <=? b)%float = true -> (b <? x)%float = false.
Proof.
  rewrite !ltb_spec, leb_spec, Prim2SF_zero.
  unfold SpecFloat.SFltb, SpecFloat.SFleb.
  destruct (Prim2SF x) as [[]|[]| |[] mx ex], (Prim2SF b) as [[]|[]| |[] mb eb];
    simpl; congruence.
Qed.

Lemma opp_negative_positive x :
  (x <? 0)%float = true -> (0 <? - x)%float = true.
Proof.
  rewrite !ltb_spec, opp_spec, Prim2SF_zero. unfold SpecFloat.SFltb.
  destruct (Prim2SF x) as [[]|[]| |[] mx ex]; simpl; congruence.
Qed.

(** X8. The guard does not look at the sign of the amount: on a source
    account whose balance is not negative, a Withdraw or Transfer with a
    negative amount is carried out and posts no failure notice, only
    observer notices. The source account gains the positive [-amount], as
    under a deposit, and a transfer between two different accounts takes
    that much from the destination. *)
Theorem negative_amount_passes_guard (c : Command) (r : ref) (x : float)
    (a : Account) (w : World) :
  source c = Some (r, x) ->
  refs_valid c w ->
  heap w !! r = Some a ->
  (x <? 0)%float = true ->
  (0 <=? _balance a)%float = true ->
  (0 <? - x)%float = true
  /\ exists w' ns,
       execute c w = Some (tt, w')
       /\ notifications w' = notifications w ++ ns
       /\ Forall (fun n => is_operational n = false) ns
       /\ (self_transfer c = false ->
           balance_of w' r = Some (_balance a + - x)%float)
       /\ forall t at_,
            c = TransferCommand r t x -> r <> t -> heap w !! t = Some at_ ->
            balance_of w' t = Some (_balance at_ + x)%float.
Proof.
  intros Hs Hv Ha Hx Hb.
  pose proof (ltb_negative_nonnegative _ _ Hx Hb) as Hlt.
  split; [by apply opp_negative_positive|].
  unfold refs_valid in Hv.
  destruct c as [r0 x0|r0 x0|f t x0]; simpl in Hs, Hv; simplify_eq.
  - eexists _, _. split; [by apply execute_withdraw_run|].
    split; [reflexivity|]. split; [apply posted_not_operational|].
    split; [|done]. intros _. unfold balance_of. by rewrite credited_lookup_eq.
  - apply Forall_cons in Hv as [_ Hv].
    apply Forall_singleton in Hv as [at_ Ht].
    destruct (credited_is_Some r a (- x)%float (ReasonTransferTo (id at_)) w t)
      as [at1 H1]; [by eexists|].
    eexists _, _. split; [by eapply execute_transfer_run|]. split.
    { cbn [notifications credited]. rewrite <- app_assoc. reflexivity. }
    split; [apply Forall_app; split; apply posted_not_operational|]. split.
    + simpl. intros Hne%bool_decide_eq_false. unfold balance_of.
      rewrite credited_lookup_ne by congruence.
      by rewrite credited_lookup_eq.
    + intros t' at' [= <-] Hne Ht'. unfold balance_of.
      rewrite credited_lookup_eq by done. simpl.
      rewrite credited_lookup_ne in H1 by done.
      pose proof (eq_trans (eq_sym H1) Ht) as E1.
      pose proof (eq_trans (eq_sym Ht') Ht) as E2.
      congruence.
Qed.

Lemma negative_amount_passes_guard_witness :
  exists w' ns,
    execute (TransferCommand 0 1 (-50)) (seeded_world 1500 500) = Some (tt, w')
    /\ notifications w' = notifications (seeded_world 1500 500) ++ ns
    /\ Forall (fun n => is_operational n = false) ns
    /\ balance_of w' 0%nat = Some 1550%float
    /\ balance_of w' 1%nat = Some 450%float.
Proof.
  destruct (negative_amount_passes_guard (TransferCommand 0 1 (-50)) 0%nat
              (-50)%float
              {| id := 1; owner := shivani; _balance := 1500;
                 observers := [shivani]; interestStrategy := SavingsInterest;
                 typeName := Savings |}
              (seeded_world 1500 500) eq_refl)
    as (_ & w' & ns & H1 & H2 & H3 & H4 & H5).
  - repeat constructor; by eexists.
  - reflexivity.
  - reflexivity.
  - reflexivity.
  - exists w', ns. split; [exact H1|]. split; [exact H2|]. split; [exact H3|].
    split; [exact (H4 eq_refl)|].
    exact (H5 1%nat
             {| id := 2; owner := ravi; _balance := 500; observers := [ravi];
                interestStrategy := CurrentInterest; typeName := Current |}
             eq_refl ltac:(discriminate) eq_refl).
Defined.

(** X9. Every amount up to and including the balance is accepted: when
    [amount <= balance] holds in double comparison, a Withdraw or Transfer
    is carried out; it posts observer notices only, and the source account
    ends with [balance + -amount]. *)
Theorem amount_within_balance_accepted (c : Command) (r : ref) (x : float)
    (a : Account) (w : World) :
  source c = Some (r, x) ->
  refs_valid c w ->
  heap w !! r = Some a ->
  (x <=? _balance a)%float = true ->
  aborts c w = false
  /\ exists w' ns,
       execute c w = Some (tt, w')
       /\ notifications w' = notifications w ++ ns
       /\ Forall (fun n => is_operational n = false) ns
       /\ (self_transfer c = false ->
           balance_of w' r = Some (_balance a + - x)%float).
Proof.
  intros Hs Hv Ha Hle. pose proof (geb_not_ltb _ _ Hle) as Hlt.
  split; [unfold aborts; by rewrite Hs, Ha|].
  unfold refs_valid in Hv.
  destruct c as [r0 x0|r0 x0|f t x0]; simpl in Hs, Hv; simplify_eq.
  - eexists _, _. split; [by apply execute_withdraw_run|].
    split; [reflexivity|]. split; [apply posted_not_operational|].
    intros _. unfold balance_of. by rewrite credited_lookup_eq.
  - apply Forall_cons in Hv as [_ Hv].
    apply Forall_singleton in Hv as [at_ Ht].
    destruct (credited_is_Some r a (- x)%float (ReasonTransferTo (id at_)) w t)
      as [at1 H1]; [by eexists|].
    eexists _, _. split; [by eapply execute_transfer_run|]. split.
    { cbn [notifications credited]. rewrite <- app_assoc. reflexivity. }
    split; [apply Forall_app; split; apply posted_not_operational|].
    simpl. intros Hne%bool_decide_eq_false. unfold balance_of.
    rewrite credited_lookup_ne by congruence.
    by rewrite credited_lookup_eq.
Qed.

Lemma amount_within_balance_accepted_witness :
  aborts (WithdrawCommand 1 500) (seeded_world 1500 500) = false
  /\ exists w' ns,
       execute (WithdrawCommand 1 500) (seeded_world 1500 500) = Some (tt, w')
       /\ notifications w' = notifications (seeded_world 1500 500) ++ ns
       /\ Forall (fun n => is_operational n = false) ns
       /\ (false = false -> balance_of w' 1%nat = Some (500 + - 500)%float).
Proof.
  apply (amount_within_balance_accepted (WithdrawCommand 1 500) 1%nat 500%float
           {| id := 2; owner := ravi; _balance := 500; observers := [ravi];
              interestStrategy := CurrentInterest; typeName := Current |}
           (seeded_world 1500 500) eq_refl).
  - repeat constructor; by eexists.
  - reflexivity.
  - reflexivity.
Defined.

(** X10. In every state the page can reach, the account ids are 1, 2, 3, ...
    in creation order with no gap up to 2^53, the value at which the counter
    stays: the [i]-th account created has id [min i 2^53] and the counter
    holds [min (n + 1) 2^53] after [n] accounts. While fewer than 2^53
    accounts exist, the ids are exactly 1 to [n] and the counter is [n + 1].
    The page's account list names every account once, in creation order. *)
Theorem ids_are_consecutive (app : App) (w : World) :
  reachable app w ->
  (forall i a, heap w !! i = Some a -> id a = Z.min (Z.of_nat i + 1) exact_limit)
  /\ accountIdSeq w = Z.min (Z.of_nat (length (heap w)) + 1) exact_limit
  /\ accounts app = seq 0 (length (heap w))
  /\ (Z.of_nat (length (heap w)) < exact_limit ->
      (forall i a, heap w !! i = Some a -> id a = Z.of_nat i + 1)
      /\ accountIdSeq w = Z.of_nat (length (heap w)) + 1).
Proof.
  intros Hr. destruct (reachable_invariants _ _ Hr) as [_ (H1 & H2 & H3 & _)].
  split; [done|]. split; [done|]. split; [done|]. intros Hn. split.
  - intros i a Ha. rewrite (H1 i a Ha). apply lookup_lt_Some in Ha. lia.
  - rewrite H2. lia.
Qed.

Lemma ids_are_consecutive_witness :
  (forall i a, heap (seeded_world 1500 500) !! i = Some a -> id a = Z.of_nat i + 1)
  /\ accountIdSeq (seeded_world 1500 500) = 3
  /\ accounts seeded_app = [0%nat; 1%nat].
Proof.
  destruct (ids_are_consecutive seeded_app (seeded_world 1500 500))
    as (_ & _ & H3 & H4).
  - exists [OpAddCustomer "Shivani"; OpAddCustomer "Ravi";
            OpCreateAccount "savings" 0 1500; OpCreateAccount "current" 1 500].
    reflexivity.
  - destruct H4 as [H4 H5]; [reflexivity|].
    split; [exact H4|]. split; [exact H5|exact H3].
Defined.

(** ** Looking accounts up by id *)

Lemma findAccountById_reachable app w i :
  reachable app w ->
  findAccountById app i w
  = Some (if bool_decide (1 <= i <= Z.min (Z.of_nat (length (heap w))) exact_limit)
          then Some (Z.to_nat (i - 1)) else None, w).
Proof.
  intros Hr. destruct (reachable_invariants _ _ Hr) as [_ (Hid & _ & Hacc & _)].
  unfold findAccountById. rewrite Hacc. by apply find_by_id_numbered.
Qed.

Lemma find_by_id_stable i l w w' found :
  stable w w' ->
  find_by_id i l w = Some (found, w) ->
  find_by_id i l w' = Some (found, w').
Proof.
  intros [_ F]. induction l as [|r l IH]; simpl.
  - unfold ret. intros [= <-]. done.
  - unfold bind, read.
    destruct (heap w !! r) as [a|] eqn:Ha; [|done].
    destruct (Forall2_lookup_l _ _ _ _ _ F Ha) as (a' & Ha' & (Hid & _)).
    change (heap w' !! r) with (@lookup nat _ _ _ r (heap w')).
    rewrite Ha', Hid. destruct (id a =? i); [|exact IH].
    unfold ret. intros [= <-]. done.
Qed.

(** X11. In every reachable state [findAccountById(i)] returns the [i]-th
    account created, whose id is [i], when [1 <= i <= number of accounts]
    and [i <= 2^53], and nothing for any other [i] (ids stop at 2^53, so no
    account is named by a larger one); it changes nothing. *)
Theorem findAccountById_finds_ith (app : App) (w : World) (i : Z) :
  reachable app w ->
  (1 <= i <= Z.min (Z.of_nat (length (heap w))) exact_limit ->
   findAccountById app i w = Some (Some (Z.to_nat (i - 1)), w)
   /\ exists a, heap w !! Z.to_nat (i - 1) = Some a /\ id a = i)
  /\ (~ 1 <= i <= Z.min (Z.of_nat (length (heap w))) exact_limit ->
      findAccountById app i w = Some (None, w)).
Proof.
  intros Hr. rewrite (findAccountById_reachable _ _ _ Hr). split; intros Hi.
  - rewrite bool_decide_eq_true_2 by done. split; [done|].
    assert (Hlt : (Z.to_nat (i - 1) < length (heap w))%nat) by lia.
    destruct (lookup_lt_is_Some_2 _ _ Hlt) as [a Ha]. exists a. split; [done|].
    destruct (reachable_ids app w Hr) as [Hid _].
    rewrite (Hid _ a Ha). lia.
  - by rewrite bool_decide_eq_false_2.
Qed.

Lemma findAccountById_finds_ith_witness :
  findAccountById seeded_app 2 (seeded_world 1500 500)
  = Some (Some 1%nat, seeded_world 1500 500)
  /\ findAccountById seeded_app 7 (seeded_world 1500 500)
     = Some (None, seeded_world 1500 500).
Proof.
  assert (Hr : reachable seeded_app (seeded_world 1500 500)).
  { exists [OpAddCustomer "Shivani"; OpAddCustomer "Ravi";
            OpCreateAccount "savings" 0 1500; OpCreateAccount "current" 1 500].
    reflexivity. }
  split.
  - refine (proj1 (proj1 (findAccountById_finds_ith seeded_app
                            (seeded_world 1500 500) 2 Hr) _)).
    unfold exact_limit. simpl. lia.
  - refine (proj2 (findAccountById_finds_ith seeded_app
                     (seeded_world 1500 500) 7 Hr) _).
    unfold exact_limit. simpl. lia.
Defined.

(** X12. An id that names no account stops every operation before it
    touches the ledger: deposit, withdraw, transfer (either end), strategy
    change and interest query each post their one notice and change neither
    an account nor the history; the interest query answers 0. *)
Theorem unknown_id_changes_nothing (app : App) (w : World) (i j : Z)
    (x : float) (key : string) :
  reachable app w ->
  ~ 1 <= i <= Z.of_nat (length (heap w)) ->
  deposit app i x w = Some (app, noticed SelectValidAccount w)
  /\ withdraw app i x w = Some (app, noticed SelectValidAccount w)
  /\ transfer app i j x w = Some (app, noticed SelectValidAccounts w)
  /\ transfer app j i x w = Some (app, noticed SelectValidAccounts w)
  /\ applyStrategy app i key w = Some (app, noticed SelectAccountForStrategy w)
  /\ calcInterest app i w = Some (0%float, noticed SelectAnAccount w).
Proof.
  intros Hr Hi.
  pose proof (findAccountById_reachable app w i Hr) as Hf.
  rewrite bool_decide_eq_false_2 in Hf by lia.
  pose proof (findAccountById_reachable app w j Hr) as Hj.
  split; [unfold deposit; by rewrite (bind_run _ _ _ _ _ Hf)|].
  split; [unfold withdraw; by rewrite (bind_run _ _ _ _ _ Hf)|].
  split.
  { unfold transfer. by rewrite (bind_run _ _ _ _ _ Hf), (bind_run _ _ _ _ _ Hj). }
  split.
  { unfold transfer. rewrite (bind_run _ _ _ _ _ Hj), (bind_run _ _ _ _ _ Hf).
    by case_bool_decide. }
  split; [unfold applyStrategy; by rewrite (bind_run _ _ _ _ _ Hf)|].
  unfold calcInterest. by rewrite (bind_run _ _ _ _ _ Hf).
Qed.

Lemma unknown_id_changes_nothing_witness :
  deposit seeded_app 7 100 (seeded_world 1500 500)
  = Some (seeded_app, noticed SelectValidAccount (seeded_world 1500 500)).
Proof.
  refine (proj1 (unknown_id_changes_nothing seeded_app (seeded_world 1500 500)
                   7 1 100 "fixed" _ _)).
  - exists [OpAddCustomer "Shivani"; OpAddCustomer "Ravi";
            OpCreateAccount "savings" 0 1500; OpCreateAccount "current" 1 500].
    reflexivity.
  - simpl. lia.
Defined.

(** X13. The page never moves money from an account to itself: a transfer
    whose two ids are the same posts a notice (that the account is the same
    when the id names one, which ids from 1 to the number of accounts do, up
    to 2^53) and changes neither an account nor the history, and no command
    on the history of a reachable state has the same account at both ends. *)
Theorem self_transfer_never_recorded (app : App) (w : World) (i : Z) (x : float) :
  reachable app w ->
  transfer app i i x w
  = Some (app, noticed (if bool_decide
                             (1 <= i <= Z.min (Z.of_nat (length (heap w))) exact_limit)
                        then SameAccount else SelectValidAccounts) w)
  /\ Forall (fun c => self_transfer c = false) (history (tm app)).
Proof.
  intros Hr. split.
  - pose proof (findAccountById_reachable app w i Hr) as Hf.
    unfold transfer. rewrite !(bind_run _ _ _ _ _ Hf).
    case_bool_decide as Hi; [|done].
    assert (Hlt : (Z.to_nat (i - 1) < length (heap w))%nat) by lia.
    destruct (lookup_lt_is_Some_2 _ _ Hlt) as [a Ha].
    rewrite !(bind_run _ _ _ _ _ (account_id_run _ _ _ Ha)).
    by rewrite Z.eqb_refl.
  - by destruct (reachable_invariants _ _ Hr) as [_ (_ & _ & _ & H)].
Qed.

Lemma self_transfer_never_recorded_witness :
  transfer seeded_app 1 1 300 (seeded_world 1500 500)
  = Some (seeded_app, noticed SameAccount (seeded_world 1500 500)).
Proof.
  refine (proj1 (self_transfer_never_recorded seeded_app (seeded_world 1500 500)
                   1 300 _)).
  exists [OpAddCustomer "Shivani"; OpAddCustomer "Ravi";
          OpCreateAccount "savings" 0 1500; OpCreateAccount "current" 1 500].
  reflexivity.
Defined.

(** X14. [applyStrategy(id, key)] on an existing account sets the strategy
    the key names, and the next interest query uses it at once; a key that
    is none of savings, fixed and current leaves the strategy as it was, yet
    the "applied" notice is posted all the same. Balances, observers and
    the history are untouched. (Ids stop at 2^53, so an existing account is
    named by an id up to that.) *)
Theorem applyStrategy_takes_effect (app : App) (w : World) (i : Z) (key : string)
    (a : Account) :
  reachable app w ->
  heap w !! Z.to_nat (i - 1) = Some a ->
  1 <= i <= exact_limit ->
  exists w',
    applyStrategy app i key w = Some (app, w')
    /\ heap w' = <[Z.to_nat (i - 1) :=
                    set_strategy a (strategy_after key (interestStrategy a))]> (heap w)
    /\ notifications w' = notifications w ++ [AppliedStrategy key i]
    /\ calcInterest app i w'
       = Some (calculate (strategy_after key (interestStrategy a)) (_balance a), w')
    /\ (String.eqb key "savings" = false -> String.eqb key "fixed" = false ->
        String.eqb key "current" = false -> heap w' = heap w).
Proof.
  intros Hr Ha Hi.
  assert (Hrange : 1 <= i <= Z.min (Z.of_nat (length (heap w))) exact_limit).
  { apply lookup_lt_Some in Ha. lia. }
  pose proof (findAccountById_reachable app w i Hr) as Hf.
  rewrite bool_decide_eq_true_2 in Hf by done.
  destruct (reachable_ids app w Hr) as [Hid _].
  assert (Hia : id a = i) by (rewrite (Hid _ a Ha); lia).
  rewrite (applyStrategy_found _ _ key _ _ _ Hf Ha), Hia.
  eexists. split; [reflexivity|]. split; [reflexivity|]. split; [reflexivity|].
  assert (Hl : (Z.to_nat (i - 1) < length (heap w))%nat) by (by eapply lookup_lt_Some).
  split.
  - assert (Hs : stable w
              {| accountIdSeq := accountIdSeq w;
                 heap := <[Z.to_nat (i - 1) :=
                            set_strategy a (strategy_after key (interestStrategy a))]>
                           (heap w);
                 notifications := notifications w ++ [AppliedStrategy key i] |}).
    { apply (stable_insert _ a); [done|]. by repeat split. }
    unfold calcInterest.
    rewrite (bind_run _ _ _ _ _ (find_by_id_stable _ _ _ _ _ Hs Hf)).
    apply (calculateInterest_run _
             (set_strategy a (strategy_after key (interestStrategy a)))).
    cbn [heap]. by apply list_lookup_insert_eq.
  - intros H1 H2 H3. cbn [heap]. unfold strategy_after. rewrite H1, H2, H3.
    replace (set_strategy a (interestStrategy a)) with a by (by destruct a).
    by apply list_insert_id.
Qed.

Lemma applyStrategy_takes_effect_witness :
  exists w',
    applyStrategy seeded_app 2 "fixed" (seeded_world 1500 500)
    = Some (seeded_app, w')
    /\ calcInterest seeded_app 2 w' = Some ((500 * 0.07)%float, w').
Proof.
  destruct (applyStrategy_takes_effect seeded_app (seeded_world 1500 500) 2 "fixed"
              {| id := 2; owner := ravi; _balance := 500; observers := [ravi];
                 interestStrategy := CurrentInterest; typeName := Current |})
    as (w' & H1 & _ & _ & H2 & _).
  - exists [OpAddCustomer "Shivani"; OpAddCustomer "Ravi";
            OpCreateAccount "savings" 0 1500; OpCreateAccount "current" 1 500].
    reflexivity.
  - reflexivity.
  - unfold exact_limit. lia.
  - exists w'. split; [exact H1|exact H2].
Defined.

(** ** Creating customers and accounts *)

Lemma or_zero_not_nan x : PrimFloat.is_nan (or_zero x) = false.
Proof.
  unfold or_zero. destruct (PrimFloat.is_nan x) eqn:Hn; [reflexivity|].
  simpl. by destruct (PrimFloat.is_zero x).
Qed.

Lemma or_zero_fixes_zero x :
  PrimFloat.is_nan x = true \/ PrimFloat.is_zero x = true -> or_zero x = 0%float.
Proof.
  unfold or_zero. intros [->| ->]; [done|]. by rewrite orb_true_r.
Qed.

Lemma or_zero_keeps x :
  PrimFloat.is_nan x = false -> PrimFloat.is_zero x = false -> or_zero x = x.
Proof. unfold or_zero. by intros -> ->. Qed.

(** X15. An account built by any of the four constructors has no observer
    at all, not even its owner (attaching the owner is [createAccount]'s
    doing): an [updateBalance] on it changes the balance and tells nobody.
    Its opening balance is [Number(initial) || 0], which is never NaN. *)
Theorem constructed_account_notifies_nobody (mk : Customer -> float -> M ref)
    (o : Customer) (init : float) (w : World) :
  mk ∈ [new_Account; new_SavingsAccount; new_CurrentAccount;
        new_FixedDepositAccount] ->
  exists w1 a,
    mk o init w = Some (length (heap w), w1)
    /\ heap w1 = heap w ++ [a]
    /\ notifications w1 = notifications w
    /\ id a = accountIdSeq w
    /\ owner a = o
    /\ observers a = []
    /\ _balance a = or_zero init
    /\ PrimFloat.is_nan (_balance a) = false
    /\ forall delta reason,
         exists w2,
           updateBalance (length (heap w)) delta reason w1 = Some (tt, w2)
           /\ balance_of w2 (length (heap w)) = Some (or_zero init + delta)%float
           /\ notifications w2 = notifications w.
Proof.
  intros Hmk.
  assert (Hgen : forall t s,
    mk o init w
    = Some (length (heap w),
            {| accountIdSeq := increment (accountIdSeq w);
               heap := heap w ++ [built (accountIdSeq w) o init t s];
               notifications := notifications w |}) ->
    exists w1 a,
      mk o init w = Some (length (heap w), w1)
      /\ heap w1 = heap w ++ [a]
      /\ notifications w1 = notifications w
      /\ id a = accountIdSeq w
      /\ owner a = o
      /\ observers a = []
      /\ _balance a = or_zero init
      /\ PrimFloat.is_nan (_balance a) = false
      /\ forall delta reason,
           exists w2,
             updateBalance (length (heap w)) delta reason w1 = Some (tt, w2)
             /\ balance_of w2 (length (heap w)) = Some (or_zero init + delta)%float
             /\ notifications w2 = notifications w).
  { intros t s Hrun. eexists _, _. split; [exact Hrun|].
    do 6 (split; [reflexivity|]). split; [apply or_zero_not_nan|].
    intros delta reason. eexists. split.
    - apply updateBalance_run. cbn [heap]. apply lookup_snoc_last.
    - split.
      + unfold balance_of. rewrite credited_lookup_eq; [done|].
        cbn [heap]. apply lookup_snoc_last.
      + cbn. by rewrite app_nil_r. }
  repeat (apply elem_of_cons in Hmk as [->|Hmk]).
  - apply (Hgen Generic CurrentInterest), new_Account_run.
  - apply (Hgen Savings SavingsInterest), typed_constructor_run.
  - apply (Hgen Current CurrentInterest), typed_constructor_run.
  - apply (Hgen FixedDeposit FixedDepositInterest), typed_constructor_run.
  - by apply elem_of_nil in Hmk.
Qed.

Lemma constructed_account_notifies_nobody_witness :
  exists w1 a,
    new_SavingsAccount shivani 1500 World_init = Some (0%nat, w1)
    /\ heap w1 = [a]
    /\ notifications w1 = [].
Proof.
  destruct (constructed_account_notifies_nobody new_SavingsAccount shivani
              1500%float World_init) as (w1 & a & H1 & H2 & H3 & _).
  - apply elem_of_cons. right. apply elem_of_cons. by left.
  - by exists w1, a.
Defined.

(** X16. [createAccount] checks only the owner index. With an index that
    names no customer nothing is created, the id counter is not used up and
    one notice is posted; with a valid one, a type key that is none of
    savings, current and fixed gives a Generic account with the Current
    (zero) strategy, and a NaN or zero opening balance opens the account
    at 0. The balance of a created account is never NaN. *)
Theorem createAccount_input_handling (app : App) (type : string) (idx : nat)
    (init : float) (w : World) :
  (customers app !! idx = None ->
   createAccount app type idx init w = Some ((None, app), noticed SelectAnOwner w))
  /\ forall o, customers app !! idx = Some o ->
       exists app' w' a,
         createAccount app type idx init w = Some ((Some (length (heap w)), app'), w')
         /\ heap w' = heap w ++ [a]
         /\ accounts app' = accounts app ++ [length (heap w)]
         /\ PrimFloat.is_nan (_balance a) = false
         /\ (PrimFloat.is_nan init = true \/ PrimFloat.is_zero init = true ->
             _balance a = 0%float)
         /\ (PrimFloat.is_nan init = false -> PrimFloat.is_zero init = false ->
             _balance a = init)
         /\ (String.eqb type "savings" = false ->
             String.eqb type "current" = false ->
             String.eqb type "fixed" = false ->
             typeName a = Generic /\ interestStrategy a = CurrentInterest).
Proof.
  split.
  - intros Ho. unfold createAccount. by rewrite Ho.
  - intros o Ho. eexists _, _, _.
    split; [by apply createAccount_run|]. split; [reflexivity|].
    split; [reflexivity|]. split; [apply or_zero_not_nan|].
    split; [apply or_zero_fixes_zero|]. split; [apply or_zero_keeps|].
    intros H1 H2 H3. cbn. unfold class_of. by rewrite H1, H2, H3.
Qed.

(** X17. A customer added to the page can own an account at once: the
    index [addCustomer] gives the new customer is the old number of
    customers, and [createAccount] with that index makes an account owned
    and observed by exactly that customer. Earlier customers keep their
    indices. *)
Theorem addCustomer_then_createAccount (app : App) (n type : string)
    (init : float) (w : World) :
  exists c app1 w1 app2 w2 a,
    addCustomer app n w = Some ((c, app1), w1)
    /\ name c = n
    /\ customers app1 = customers app ++ [c]
    /\ (forall k c', customers app !! k = Some c' -> customers app1 !! k = Some c')
    /\ heap w1 = heap w
    /\ createAccount app1 type (length (customers app)) init w1
       = Some ((Some (length (heap w)), app2), w2)
    /\ heap w2 !! length (heap w) = Some a
    /\ owner a = c
    /\ observers a = [c].
Proof.
  eexists _, _, _, _, _, _. split; [reflexivity|]. split; [reflexivity|].
  split; [reflexivity|]. split.
  { intros k c' Hk. cbn [customers]. rewrite lookup_app_l; [done|].
    by eapply lookup_lt_Some. }
  split; [reflexivity|]. split.
  { erewrite createAccount_run by (cbn [customers]; apply lookup_snoc_last).
    reflexivity. }
  split; [cbn [heap noticed]; apply lookup_snoc_last|]. done.
Qed.

(** ** The money buttons *)

Lemma money_operations_push app w i j x :
  App_ok app w ->
  (exists app' w', deposit app i x w = Some (app', w') /\ pushed_at_most app app' x)
  /\ (exists app' w', withdraw app i x w = Some (app', w') /\ pushed_at_most app app' x)
  /\ (exists app' w', transfer app i j x w = Some (app', w') /\ pushed_at_most app app' x).
Proof.
  intros Hok.
  assert (Hfind : forall k, exists found,
             findAccountById app k w = Some (found, w)
             /\ forall r, found = Some r -> is_Some (heap w !! r)).
  { intros k. apply find_by_id_run. by destruct Hok. }
  assert (Hpush : forall c, refs_valid c w -> amount_of c = x ->
            exists app' w',
              (let* t := executeCommand (tm app) c in ret (with_tm app t)) w
              = Some (app', w') /\ pushed_at_most app app' x).
  { intros c Hv Hx. destruct (executeCommand_ok app c w Hok Hv) as (w' & He & _).
    eexists _, _. split; [exact He|]. right. by exists c. }
  assert (Hnote : forall n, exists app' w',
            (UI_notify n ;; ret app) w = Some (app', w') /\ pushed_at_most app app' x).
  { intros n. eexists _, _. split; [reflexivity|]. by left. }
  destruct (Hfind i) as (fi & Hfi & Hvi). destruct (Hfind j) as (fj & Hfj & Hvj).
  split; [|split].
  - unfold deposit. rewrite (bind_run _ _ _ _ _ Hfi). destruct fi as [r|]; [|apply Hnote].
    apply Hpush; [|done]. apply Forall_singleton. by apply Hvi.
  - unfold withdraw. rewrite (bind_run _ _ _ _ _ Hfi). destruct fi as [r|]; [|apply Hnote].
    apply Hpush; [|done]. apply Forall_singleton. by apply Hvi.
  - unfold transfer. rewrite (bind_run _ _ _ _ _ Hfi), (bind_run _ _ _ _ _ Hfj).
    destruct fi as [f|]; [destruct fj as [t|]|]; [|apply Hnote|destruct fj; apply Hnote].
    destruct (Hvi f eq_refl) as [af Haf]. destruct (Hvj t eq_refl) as [at_ Hat].
    rewrite (bind_run _ _ _ _ _ (account_id_run _ _ _ Haf)).
    rewrite (bind_run _ _ _ _ _ (account_id_run _ _ _ Hat)).
    destruct (id af =? id at_); [apply Hnote|].
    apply Hpush; [|done]. apply Forall_cons. split; [by eexists|].
    apply Forall_singleton. by eexists.
Qed.

(** What a money operation records once its accounts are found. *)
Lemma money_operations_record app w i j x r :
  App_ok app w ->
  findAccountById app i w = Some (Some r, w) ->
  (exists w', deposit app i x w
              = Some (with_tm app {| history := history (tm app)
                                                ++ [DepositCommand r x] |}, w'))
  /\ (exists w', withdraw app i x w
                 = Some (with_tm app {| history := history (tm app)
                                                   ++ [WithdrawCommand r x] |}, w'))
  /\ forall t af at_,
       findAccountById app j w = Some (Some t, w) ->
       heap w !! r = Some af -> heap w !! t = Some at_ ->
       id af <> id at_ ->
       exists w', transfer app i j x w
                  = Some (with_tm app {| history := history (tm app)
                                                    ++ [TransferCommand r t x] |}, w').
Proof.
  intros Hok Hfi.
  assert (Hfind : forall k, exists found,
             findAccountById app k w = Some (found, w)
             /\ forall r, found = Some r -> is_Some (heap w !! r)).
  { intros k. apply find_by_id_run. by destruct Hok. }
  assert (Hr : is_Some (heap w !! r)).
  { destruct (Hfind i) as (found & Hf & Hv). rewrite Hfi in Hf. apply Hv.
    by simplify_eq. }
  split; [|split].
  - unfold deposit. rewrite (bind_run _ _ _ _ _ Hfi).
    destruct (executeCommand_ok app (DepositCommand r x) w Hok) as (w' & He & _);
      [by apply Forall_singleton|].
    by exists w'.
  - unfold withdraw. rewrite (bind_run _ _ _ _ _ Hfi).
    destruct (executeCommand_ok app (WithdrawCommand r x) w Hok) as (w' & He & _);
      [by apply Forall_singleton|].
    by exists w'.
  - intros t af at_ Hfj Haf Hat Hne. unfold transfer.
    rewrite (bind_run _ _ _ _ _ Hfi), (bind_run _ _ _ _ _ Hfj).
    rewrite (bind_run _ _ _ _ _ (account_id_run _ _ _ Haf)).
    rewrite (bind_run _ _ _ _ _ (account_id_run _ _ _ Hat)).
    destruct (Z.eqb_spec (id af) (id at_)) as [E|_]; [done|].
    destruct (executeCommand_ok app (TransferCommand r t x) w Hok) as (w' & He & _).
    { apply Forall_cons. split; [done|]. apply Forall_singleton. by eexists. }
    by exists w'.
Qed.

(** X18. The deposit, withdraw and transfer buttons hand [Number(v) || 0]
    to the ledger: each click runs to completion and records at most one
    command, whose amount is that value and so never NaN; an empty, zero or
    unparsable amount field becomes a command with amount 0. When the
    selected account exists, a deposit or withdraw click records exactly that
    command on it at the end of the history, and a transfer click does so
    when both accounts exist and their ids differ. *)
Theorem buttons_never_pass_nan (app : App) (w : World) (i j : Z) (v : float) :
  App_ok app w ->
  PrimFloat.is_nan (or_zero v) = false
  /\ (PrimFloat.is_nan v = true \/ PrimFloat.is_zero v = true -> or_zero v = 0%float)
  /\ (exists app' w',
        depositBtn_click app i v w = Some (app', w')
        /\ pushed_at_most app app' (or_zero v))
  /\ (exists app' w',
        withdrawBtn_click app i v w = Some (app', w')
        /\ pushed_at_most app app' (or_zero v))
  /\ (exists app' w',
        transferBtn_click app i j v w = Some (app', w')
        /\ pushed_at_most app app' (or_zero v))
  /\ forall r,
       findAccountById app i w = Some (Some r, w) ->
       (exists w', depositBtn_click app i v w
                   = Some (with_tm app
                             {| history := history (tm app)
                                           ++ [DepositCommand r (or_zero v)] |}, w'))
       /\ (exists w', withdrawBtn_click app i v w
                      = Some (with_tm app
                                {| history := history (tm app)
                                              ++ [WithdrawCommand r (or_zero v)] |}, w'))
       /\ forall t af at_,
            findAccountById app j w = Some (Some t, w) ->
            heap w !! r = Some af -> heap w !! t = Some at_ ->
            id af <> id at_ ->
            exists w', transferBtn_click app i j v w
                       = Some (with_tm app
                                 {| history := history (tm app)
                                               ++ [TransferCommand r t (or_zero v)] |},
                               w').
Proof.
  intros Hok. split; [apply or_zero_not_nan|]. split; [apply or_zero_fixes_zero|].
  destruct (money_operations_push app w i j (or_zero v) Hok) as (H1 & H2 & H3).
  do 3 (split; [done|]).
  intros r Hr. exact (money_operations_record app w i j (or_zero v) r Hok Hr).
Qed.

Lemma buttons_never_pass_nan_witness :
  (exists w',
     withdrawBtn_click seeded_app 2 nan (seeded_world 1500 500)
     = Some ({| customers := [shivani; ravi]; accounts := [0%nat; 1%nat];
                tm := {| history := [WithdrawCommand 1 0] |} |}, w'))
  /\ exists w',
       transferBtn_click seeded_app 2 1 nan (seeded_world 1500 500)
       = Some ({| customers := [shivani; ravi]; accounts := [0%nat; 1%nat];
                  tm := {| history := [TransferCommand 1 0 0] |} |}, w').
Proof.
  destruct (buttons_never_pass_nan seeded_app (seeded_world 1500 500) 2 1 nan)
    as (_ & _ & _ & _ & _ & H).
  - exact (proj1 (reachable_invariants _ _ (seeded_reachable 1500 500))).
  - destruct (H 1%nat eq_refl) as (_ & Hw & Ht). split; [exact Hw|].
    exact (Ht 0%nat
             {| id := 2; owner := ravi; _balance := 500; observers := [ravi];
                interestStrategy := CurrentInterest; typeName := Current |}
             {| id := 1; owner := shivani; _balance := 1500;
                observers := [shivani]; interestStrategy := SavingsInterest;
                typeName := Savings |}
             eq_refl eq_refl eq_refl ltac:(discriminate)).
Defined.

(** ** What each operation does to the history *)

(** X19. The history changes only at its end and only by the operations
    meant to change it: a deposit, withdraw or transfer appends at most one
    command, carrying the amount it was given; [undoLast] removes the last
    command, or finds the history empty and leaves it so; adding a customer,
    creating an account, changing a strategy and querying interest leave
    the history as it was. A removed command is gone: nothing puts it back. *)
Theorem history_changes_at_its_end (op : Op) (app app' : App) (w w' : World) :
  App_ok app w ->
  perform op app w = Some (app', w') ->
  match op with
  | OpDeposit _ x | OpWithdraw _ x | OpTransfer _ _ x => pushed_at_most app app' x
  | OpUndoLast =>
      (history (tm app) = [] /\ history (tm app') = [])
      \/ exists c, history (tm app) = history (tm app') ++ [c]
  | _ => history (tm app') = history (tm app)
  end.
Proof.
  intros Hok Hrun.
  destruct op as [n|type idx init|i x|i x|fi ti x| |i key|i]; simpl in Hrun.
  - unfold addCustomer, bind, UI_notify, ret in Hrun. by simplify_eq.
  - destruct (customers app !! idx) as [o|] eqn:Ho.
    + rewrite (bind_run _ _ _ _ _ (createAccount_run _ type _ init _ w Ho)) in Hrun.
      unfold ret in Hrun. by simplify_eq.
    + unfold createAccount in Hrun. rewrite Ho in Hrun.
      unfold bind, UI_notify, ret in Hrun. by simplify_eq.
  - destruct (money_operations_push app w i i x Hok) as [(a1 & w1 & H1 & Hp) _].
    rewrite H1 in Hrun. by simplify_eq.
  - destruct (money_operations_push app w i i x Hok) as (_ & (a1 & w1 & H1 & Hp) & _).
    rewrite H1 in Hrun. by simplify_eq.
  - destruct (money_operations_push app w fi ti x Hok) as (_ & _ & (a1 & w1 & H1 & Hp)).
    rewrite H1 in Hrun. by simplify_eq.
  - unfold App_undoLast in Hrun. destruct app as [cs acc [h]]. cbn [tm] in *.
    destruct h as [|c h _] using rev_ind.
    + rewrite (bind_run _ _ _ _ _ (undoLast_empty_run w)) in Hrun.
      unfold ret in Hrun. simplify_eq. by left.
    + unfold bind in Hrun. rewrite undoLast_snoc_run in Hrun.
      destruct (undo c w) as [[[] w1]|]; [|done].
      unfold ret in Hrun. simplify_eq. right. by exists c.
  - destruct (find_by_id_run i (accounts app) w) as (found & Hf & Hv);
      [by destruct Hok|].
    destruct found as [r|].
    + destruct (Hv r eq_refl) as [a Ha].
      rewrite (applyStrategy_found _ _ key _ _ _ Hf Ha) in Hrun. by simplify_eq.
    + unfold applyStrategy in Hrun. rewrite (bind_run _ _ _ _ _ Hf) in Hrun.
      unfold bind, UI_notify, ret in Hrun. by simplify_eq.
  - unfold bind at 1 in Hrun. destruct (calcInterest app i w) as [[v w1]|]; [|done].
    unfold ret in Hrun. by simplify_eq.
Qed.

Lemma history_changes_at_its_end_witness :
  exists app1 w1 app2 w2,
    perform (OpDeposit 1 100) seeded_app (seeded_world 1500 500) = Some (app1, w1)
    /\ history (tm app1) = [DepositCommand 0 100]
    /\ pushed_at_most seeded_app app1 100
    /\ perform OpUndoLast app1 w1 = Some (app2, w2)
    /\ history (tm app2) = []
    /\ ((history (tm app1) = [] /\ history (tm app2) = [])
        \/ exists c, history (tm app1) = history (tm app2) ++ [c]).
Proof.
  pose (a0 := {| id := 1; owner := shivani; _balance := 1500;
                 observers := [shivani]; interestStrategy := SavingsInterest;
                 typeName := Savings |}).
  pose (app1 := with_tm seeded_app {| history := [DepositCommand 0 100] |}).
  pose (w1 := credited 0%nat a0 100 ReasonDeposit (seeded_world 1500 500)).
  pose (w2 := credited 0%nat (set_balance a0 1600) (-100) ReasonUndoDeposit w1).
  assert (H1 : perform (OpDeposit 1 100) seeded_app (seeded_world 1500 500)
               = Some (app1, w1)) by reflexivity.
  assert (H2 : perform OpUndoLast app1 w1 = Some (seeded_app, w2)) by reflexivity.
  assert (Hok1 : App_ok app1 w1).
  { apply reachable_invariants.
    exists [OpAddCustomer "Shivani"; OpAddCustomer "Ravi";
            OpCreateAccount "savings" 0 1500; OpCreateAccount "current" 1 500;
            OpDeposit 1 100].
    reflexivity. }
  exists app1, w1, seeded_app, w2.
  split; [exact H1|]. split; [reflexivity|]. split.
  { exact (history_changes_at_its_end (OpDeposit 1 100) seeded_app app1
             (seeded_world 1500 500) w1
             (proj1 (reachable_invariants _ _ (seeded_reachable 1500 500))) H1). }
  split; [exact H2|]. split; [reflexivity|].
  exact (history_changes_at_its_end OpUndoLast app1 seeded_app w1 w2 Hok1 H2).
Defined.
